(** * Automatic speech recognition with a Transformer: the script's own logic

    A shallow embedding of the hand-written parts of
    [automatic_speech_recognition_with_transformer.ipynb]: the dataset
    filter [get_data], the character vectorizer [VectorizeChar], the
    normalise / pad / slice tail of [path_to_audio], the display callback
    [DisplayOutputs.on_epoch_end] and the learning-rate schedule
    [CustomSchedule].  Library calls (Unicode case mapping, wav decoding,
    the STFT, the model's [generate]) are taken as parameters.

    Conventions.  A Python [str] is a list of code points, a Python [int] is
    a [Z], an exception is a value of [exn] returned on the left of a sum.
    A Python [float] is an IEEE 754 binary64 number, the kernel's [float],
    and a learning rate is the float32 the schedule returns, held as the
    binary64 number of the same value.  Spectrogram entries live in an
    abstract arithmetic that is instantiated with binary64 floats. *)

From Stdlib Require Import ZArith QArith Qminmax Qabs Lqa.
From Stdlib Require Import PrimFloat SpecFloat FloatOps String Ascii.
From stdpp Require Import gmap list.

Local Open Scope Z_scope.

(** ** Python values *)

Module Py.

(** A [str] is a sequence of Unicode code points; a character obtained by
    iterating over a [str] is a [str] of length one. *)
Definition str := list N.

Definition lit (s : string) : str :=
  map N_of_ascii (list_ascii_of_string s).

Definition len {A} (l : list A) : Z := Z.of_nat (length l).

(** Exceptions the script can raise. *)
Inductive exn :=
| KeyError (key : str)
| IndexError
| ZeroDivisionError
| OverflowError
| TypeError
| InvalidArgumentError.

Definition result (A : Type) : Type := exn + A.
Definition ok {A} (a : A) : result A := inr a.
Definition raise {A} (e : exn) : result A := inl e.
Definition bind {A B} (r : result A) (k : A → result B) : result B :=
  match r with
  | inl e => inl e
  | inr a => k a
  end.

(** [s[:k]]: a negative bound counts from the end, and bounds are clipped
    to the sequence. *)
Definition slice_to {A} (s : list A) (k : Z) : list A :=
  if 0 <=? k then take (Z.to_nat k) s
  else take (Z.to_nat (len s + k)) s.

(** [[x] * n]: a non-positive count gives the empty list. *)
Definition repeat_list {A} (x : A) (n : Z) : list A :=
  replicate (Z.to_nat n) x.

(** [l[i]] for a list: negative indices count from the end, anything
    outside [-len, len) raises [IndexError]. *)
Definition index {A} (l : list A) (i : Z) : result A :=
  let j := if i <? 0 then len l + i else i in
  if j <? 0 then raise IndexError
  else match l !! Z.to_nat j with
       | Some x => ok x
       | None => raise IndexError
       end.

(** [d[k]] for a dict. *)
Definition getitem {V} (d : gmap str V) (k : str) : result V :=
  match d !! k with
  | Some v => ok v
  | None => raise (KeyError k)
  end.

(** [d.get(k, dflt)]. *)
Definition get {V} (d : gmap str V) (k : str) (dflt : V) : V :=
  default dflt (d !! k).

(** [enumerate(l)]. *)
Definition enumerate {A} (l : list A) : list (Z * A) :=
  imap (λ i x, (Z.of_nat i, x)) l.

(** [s.split(sep)] for a one-character separator: the pieces between the
    occurrences of [sep]; there is always at least one piece. *)
Fixpoint split_go (sep : N) (s : str) (cur : str) : list str :=
  match s with
  | [] => [reverse cur]
  | c :: s' =>
      if N.eqb c sep then reverse cur :: split_go sep s' []
      else split_go sep s' (c :: cur)
  end.

Definition split (s : str) (sep : N) : list str := split_go sep s [].

(** [s.replace(c, '')] for a one-character [c]: every occurrence goes. *)
Definition remove_char (c : N) (s : str) : str :=
  List.filter (λ x, negb (N.eqb x c)) s.

Definition is_ascii (c : N) : bool := N.ltb c 128.

(** ASCII case folding: [A]..[Z] go to [a]..[z]. *)
Definition ascii_lower (c : N) : N :=
  if (N.leb 65 c && N.leb c 90)%bool then (c + 32)%N else c.

Section Lower.
(** [str.lower] on a string with a character outside ASCII follows the
    Unicode character database, which is not part of the script. *)
Variable unicode_lower : str → str.

Definition lower (s : str) : str :=
  if forallb is_ascii s then map ascii_lower s else unicode_lower s.
End Lower.

End Py.

(** ** VectorizeChar *)

Module VectorizeChar.
Import Py.

Record t := mk {
  vocab : list str;
  max_len : Z;
  char_to_idx : gmap str Z
}.

(** [[chr(i + 96) for i in range(1, 27)]] *)
Definition letters : list str :=
  map (λ i, [N.of_nat (i + 96)]) (seq 1 26).

Definition the_vocab : list str :=
  [lit "-"; lit "#"; lit "<"; lit ">"]
    ++ letters
    ++ [lit " "; lit "."; lit ","; lit "?"].

(** The loop [for i, ch in enumerate(vocab): char_to_idx[ch] = i]. *)
Definition index_table (vocab : list str) : gmap str Z :=
  foldl (λ d '(i, ch), <[ch := i]> d) ∅ (enumerate vocab).

Definition init (max_len : Z) : t :=
  {| vocab := the_vocab;
     max_len := max_len;
     char_to_idx := index_table the_vocab |}.

Section Call.
Variable unicode_lower : str → str.

Definition call (self : t) (text : str) : list Z :=
  let text := lower unicode_lower text in
  let text := slice_to text (max_len self - 2) in
  let text := lit "<" ++ text ++ lit ">" in
  let pad_len := max_len self - len text in
  map (λ ch, get (char_to_idx self) [ch] 1) text ++ repeat_list 0 pad_len.
End Call.

Definition get_vocabulary (self : t) : list str := vocab self.

(** The code of one character under the table of [init]:
    [char_to_idx.get(ch, 1)]. *)
Definition encode (ch : N) : Z := get (index_table the_vocab) [ch] 1.

End VectorizeChar.

(** ** The dataset filter *)

Module Dataset.
Import Py.

(** One [{"audio": w, "text": t}] record. *)
Record sample := mk_sample { audio : str; text : str }.

Definition slash : N := 47.
Definition dot : N := 46.

(** [w.split("/")[-1].split(".")[0]] *)
Definition wav_id (w : str) : result str :=
  bind (index (split w slash) (-1)) (λ base, index (split base dot) 0).

(** The body of [for w in wavs], threading the list [data]. *)
Fixpoint get_data_loop (id_to_text : gmap str str) (maxlen : Z)
    (wavs : list str) (data : list sample) : result (list sample) :=
  match wavs with
  | [] => ok data
  | w :: wavs' =>
      bind (wav_id w) (λ id,
      bind (getitem id_to_text id) (λ t,
      if len t <? maxlen then
        bind (getitem id_to_text id) (λ t',
        get_data_loop id_to_text maxlen wavs'
          (data ++ [{| audio := w; text := t' |}]))
      else get_data_loop id_to_text maxlen wavs' data))
  end.

Definition get_data (wavs : list str) (id_to_text : gmap str str)
    (maxlen : Z) : result (list sample) :=
  get_data_loop id_to_text maxlen wavs [].

(** *** What the specification says is returned

    The transcript the mapping holds for a wav path, and the test "its
    length is strictly less than maxlen". *)
Definition transcript (id_to_text : gmap str str) (w : str) : option str :=
  match wav_id w with
  | inr id => id_to_text !! id
  | inl _ => None
  end.

(** The record kept for a path, if any. *)
Definition kept (id_to_text : gmap str str) (maxlen : Z)
    (w : str) : option sample :=
  match transcript id_to_text w with
  | Some t => if len t <? maxlen then Some (mk_sample w t) else None
  | None => None
  end.

Definition short_enough (id_to_text : gmap str str) (maxlen : Z)
    (w : str) : bool :=
  match transcript id_to_text w with
  | Some t => len t <? maxlen
  | None => false
  end.

End Dataset.

(** ** The audio featurizer *)

Module Audio.
Import Py.

(** The arithmetic of tensor entries. *)
Class TensorNum (F : Type) := {
  fzero : F;
  fadd : F → F → F;
  fsub : F → F → F;
  fmul : F → F → F;
  fdiv : F → F → F;
  fsqrt : F → F;
  fcount : nat → F
}.

Section Featurizer.
Context {F : Type} `{TensorNum F}.

(** [x = tf.math.pow(tf.abs(stfts), 0.5)] for the file at a path: reading
    and decoding the wav, the STFT, its magnitude and the power are
    TensorFlow's.  The result has one row per STFT frame. *)
Variable compressed_magnitude : str → list (list F).

(** [fft_length // 2 + 1] frequency bins per frame. *)
Definition fft_length : Z := 256.
Definition bins : nat := Z.to_nat (fft_length / 2 + 1).

Definition reduce_sum (row : list F) : F := foldl fadd fzero row.

(** [tf.math.reduce_mean(x, 1, keepdims=True)], one row. *)
Definition reduce_mean (row : list F) : F :=
  fdiv (reduce_sum row) (fcount (length row)).

(** [tf.math.reduce_std(x, 1, keepdims=True)], one row: the square root
    of the mean squared deviation from the mean. *)
Definition reduce_std (row : list F) : F :=
  let m := reduce_mean row in
  fsqrt (reduce_mean (map (λ v, fmul (fsub v m) (fsub v m)) row)).

(** [(x - means) / stddevs], one row. *)
Definition normalise_row (row : list F) : list F :=
  let means := reduce_mean row in
  let stddevs := reduce_std row in
  map (λ v, fdiv (fsub v means) stddevs) row.

Definition pad_len : Z := 2754.

(** [tf.pad(x, [[0, after], [0, 0]], "CONSTANT")] *)
Definition pad_rows (x : list (list F)) (after : Z) : list (list F) :=
  x ++ repeat_list (replicate bins fzero) after.

Definition path_to_audio (path : str) : list (list F) :=
  let x := compressed_magnitude path in
  let x := map normalise_row x in
  slice_to (pad_rows x pad_len) pad_len.

End Featurizer.

(** IEEE 754 binary64 entries. *)
Fixpoint float_of_nat (n : nat) : float :=
  match n with
  | O => 0%float
  | S k => (float_of_nat k + 1)%float
  end.

#[export] Instance float_num : TensorNum float := {|
  fzero := 0%float;
  fadd := PrimFloat.add;
  fsub := PrimFloat.sub;
  fmul := PrimFloat.mul;
  fdiv := PrimFloat.div;
  fsqrt := PrimFloat.sqrt;
  fcount := float_of_nat
|}.

(** The magnitudes of one frame of silence: every bin is zero. *)
Definition silent_frame {F : Type} `{TensorNum F} : list F :=
  replicate bins fzero.

(** Arithmetic that is exact on zero, as every IEEE 754 format is: sums,
    differences and products of zeros, zero over the (non-zero) number of
    bins, and the square root of zero are all zero. *)
Class ExactZero (F : Type) `{TensorNum F} : Prop := {
  zero_add : fadd fzero fzero = fzero;
  zero_sub : fsub fzero fzero = fzero;
  zero_mul : fmul fzero fzero = fzero;
  zero_over_bins : fdiv fzero (fcount bins) = fzero;
  zero_sqrt : fsqrt fzero = fzero
}.

End Audio.

(** ** The display callback *)

Module DisplayOutputs.
Import Py.

Section Callback.
(** One element of the batch's ["source"] tensor. *)
Variable Spectrogram : Type.

(** What the callback does to the outside world, in order. *)
Inductive event :=
| EvGenerate (source : list Spectrogram) (start_token_idx : Z)
| EvPrint (line : str).

(** Computations that append to the event log and may raise. *)
Definition io (A : Type) : Type := list event → list event * result A.

Definition ret {A} (a : A) : io A := λ log, (log, ok a).
Definition emit (e : event) : io unit := λ log, (log ++ [e], ok tt).
Definition lift {A} (r : result A) : io A := λ log, (log, r).
Definition seq_io {A B} (m : io A) (k : A → io B) : io B :=
  λ log,
    match m log with
    | (log', inr a) => k a log'
    | (log', inl e) => (log', inl e)
    end.

Notation "'let!' x ':=' m 'in' k" := (seq_io m (λ x, k))
  (at level 10, x name, m at level 100, k at level 200).
Notation "m '>>' k" := (seq_io m (λ _, k))
  (at level 100, k at level 200, right associativity).

Record t := mk {
  batch_source : list Spectrogram;
  batch_target : list (list Z);
  target_start_token_idx : Z;
  target_end_token_idx : Z;
  idx_to_char : list str;
  (** [self.model.generate], the decoding routine of the model the
      callback is attached to. *)
  model_generate : list Spectrogram → Z → list (list Z)
}.

(** [''.join([self.idx_to_char[_] for _ in row])] *)
Fixpoint join_tokens (table : list str) (row : list Z) : result str :=
  match row with
  | [] => ok []
  | i :: row' =>
      bind (index table i) (λ tok,
      bind (join_tokens table row') (λ rest, ok (tok ++ rest)))
  end.

(** The inner loop [for idx in preds[i, :]], with its [break]. *)
Fixpoint prediction_loop (table : list str) (end_idx : Z)
    (row : list Z) (prediction : str) : result str :=
  match row with
  | [] => ok prediction
  | idx :: row' =>
      bind (index table idx) (λ tok,
      let prediction := prediction ++ tok in
      if idx =? end_idx then ok prediction
      else prediction_loop table end_idx row' prediction)
  end.

Definition newline : N := 10.
Definition hyphen : N := 45.

(** The body of [for i in range(bs)]. *)
Definition show_row (self : t) (target preds : list (list Z)) (i : Z)
    : io unit :=
  let! trow := lift (index target i) in
  let! target_text := lift (join_tokens (idx_to_char self) trow) in
  let! prow := lift (index preds i) in
  let! prediction := lift (prediction_loop (idx_to_char self)
                             (target_end_token_idx self) prow []) in
  emit (EvPrint (lit "target:     " ++ remove_char hyphen target_text)) >>
  emit (EvPrint (lit "prediction: " ++ prediction ++ [newline])).

Fixpoint for_each (body : Z → io unit) (range : list Z) : io unit :=
  match range with
  | [] => ret tt
  | i :: range' => body i >> for_each body range'
  end.

(** [range(bs)] *)
Definition range (bs : Z) : list Z := map Z.of_nat (seq 0 (Z.to_nat bs)).

Definition on_epoch_end (self : t) (epoch : Z) : io unit :=
  if negb (epoch mod 5 =? 0) then ret tt
  else
    let source := batch_source self in
    let target := batch_target self in
    let bs := len source in
    emit (EvGenerate source (target_start_token_idx self)) >>
    let preds := model_generate self source (target_start_token_idx self) in
    for_each (show_row self target preds) (range bs).

End Callback.

Arguments EvGenerate {Spectrogram}.
Arguments EvPrint {Spectrogram}.
Arguments batch_source {Spectrogram}.
Arguments batch_target {Spectrogram}.
Arguments target_start_token_idx {Spectrogram}.
Arguments target_end_token_idx {Spectrogram}.
Arguments idx_to_char {Spectrogram}.
Arguments model_generate {Spectrogram}.
Arguments on_epoch_end {Spectrogram}.
Arguments show_row {Spectrogram}.
Arguments for_each {Spectrogram}.

(** *** What the specification says is printed

    A row "up to and including the first occurrence of the end-token
    index (the whole row if no end token occurs)". *)
Fixpoint through_end (end_idx : Z) (row : list Z) : list Z :=
  match row with
  | [] => []
  | idx :: row' =>
      if idx =? end_idx then [idx] else idx :: through_end end_idx row'
  end.

(** An index that [table[i]] accepts. *)
Definition valid_index (table : list Py.str) (i : Z) : Prop :=
  - Py.len table ≤ i < Py.len table.

(** The token at a valid index, and the "decoded characters" of a row. *)
Definition token (table : list Py.str) (i : Z) : Py.str :=
  match Py.index table i with
  | inr tok => tok
  | inl _ => []
  end.

Definition decode (table : list Py.str) (row : list Z) : Py.str :=
  concat (map (token table) row).

(** The two lines shown for row [i]. *)
Definition row_lines {Spectrogram} (self : t Spectrogram)
    (preds : list (list Z)) (i : nat) : list (event Spectrogram) :=
  [ EvPrint (Py.lit "target:     "
             ++ Py.remove_char hyphen
                  (decode (idx_to_char self) (nth i (batch_target self) [])));
    EvPrint (Py.lit "prediction: "
             ++ decode (idx_to_char self)
                  (through_end (target_end_token_idx self) (nth i preds []))
             ++ [newline]) ].

(** Row [i] can be shown: the targets and the predictions both have a row
    [i], and every index of the target row, and of the predicted row up to
    and including its first end token, is one the table accepts. *)
Definition decodable {Spectrogram} (self : t Spectrogram)
    (preds : list (list Z)) (i : nat) : Prop :=
  (i < length (batch_target self))%nat ∧
  (i < length preds)%nat ∧
  Forall (valid_index (idx_to_char self)) (nth i (batch_target self) []) ∧
  Forall (valid_index (idx_to_char self))
         (through_end (target_end_token_idx self) (nth i preds [])).

End DisplayOutputs.

(** ** Floating-point numbers *)

Module PyFloat.
Local Open Scope Q_scope.

(** A Python [float] is an IEEE 754 binary64 number, the kernel's [float].
    An entry of a float32 tensor is held as the binary64 number with the
    same value. *)

(** [float(n)] of a Python [int]: the nearest binary64 number, ties to
    even; the result is infinite when [n] is beyond the format. *)
Definition of_int (n : Z) : float :=
  SF2Prim (binary_normalize prec emax n 0 false).

(** The float32 nearest to a binary64 number (ties to even, gradual
    underflow, overflow to infinity): what a float32 tensor built from a
    Python float stores. *)
Definition float32 (x : float) : float :=
  match Prim2SF x with
  | S754_finite s m e => SF2Prim (binary_round 24 128 s m e)
  | _ => x
  end.

(** The rational number a finite float stands for, in lowest terms. *)
Definition value (x : float) : option Q :=
  match Prim2SF x with
  | S754_zero _ => Some 0
  | S754_finite s m e =>
      Some (Qred (inject_Z (cond_Zopp s (Zpos m)) * Qpower 2 e))
  | _ => None
  end.

Definition exact (x : float) : Q :=
  match value x with Some q => q | None => 0 end.

(** [tf.math.maximum] and [tf.math.minimum] on entries:
    [x > y ? x : y] and [x < y ? x : y]. *)
Definition maximum (x y : float) : float := if (y <? x)%float then x else y.
Definition minimum (x y : float) : float := if (x <? y)%float then x else y.

End PyFloat.

(** ** The learning-rate schedule *)

Module CustomSchedule.
Import Py PyFloat.
#[local] Set Warnings "-inexact-float".

(** What [__call__] and [calculate_lr] are given: a Python [int], or the
    scalar int64 tensor an optimizer keeps its iteration count in. *)
Inductive number :=
| PyInt (n : Z)
| Int64Tensor (n : Z).

Record t := mk {
  init_lr : float;
  lr_after_warmup : float;
  final_lr : float;
  warmup_epochs : Z;
  decay_epochs : Z;
  steps_per_epoch : Z
}.

(** The conversion Python applies to the [int] operand of a mixed
    [float]/[int] operation: [OverflowError] when the integer is too large
    for a float. *)
Definition float_of_int (n : Z) : result float :=
  let x := of_int n in
  if is_infinity x then raise OverflowError else ok x.

(** [a / b], [a * n] and [n * a] for a float [a] and ints [b], [n]. *)
Definition truediv (a : float) (b : Z) : result float :=
  bind (float_of_int b) (λ y,
  if (b =? 0)%Z then raise ZeroDivisionError else ok (a / y)%float).

Definition mul_int (a : float) (n : Z) : result float :=
  bind (float_of_int n) (λ y, ok (a * y)%float).

Definition int_mul (n : Z) (a : float) : result float :=
  bind (float_of_int n) (λ x, ok (x * a)%float).

(** With a Python [int] epoch both curves are computed in binary64 by
    Python; [tf.math.maximum] and [tf.math.minimum] then turn their float
    arguments into float32 tensors, so the rate returned is a float32.
    With an int64 tensor the product [float * epoch] of the first
    statement is refused: a Python float is not converted to int64. *)
Definition calculate_lr (self : t) (epoch : number) : result float :=
  bind (truediv (lr_after_warmup self - init_lr self)
                (warmup_epochs self - 1)) (λ slope,
  match epoch with
  | Int64Tensor _ => raise TypeError
  | PyInt e =>
      bind (mul_int slope e) (λ rise,
      let warmup_lr := (init_lr self + rise)%float in
      bind (int_mul (e - warmup_epochs self)
                    (lr_after_warmup self - final_lr self)) (λ fall,
      bind (truediv fall (decay_epochs self)) (λ drop,
      let decay_lr :=
        maximum (float32 (final_lr self))
                (float32 (lr_after_warmup self - drop)) in
      ok (minimum (float32 warmup_lr) decay_lr))))
  end).

(** [step // self.steps_per_epoch]: floor division, of Python ints or of
    int64 tensors (where a zero divisor is refused by the kernel of the
    operation). *)
Definition floordiv (step : number) (b : Z) : result number :=
  match step with
  | PyInt n =>
      if (b =? 0)%Z then raise ZeroDivisionError else ok (PyInt (n / b))
  | Int64Tensor n =>
      if (b =? 0)%Z then raise InvalidArgumentError
      else ok (Int64Tensor (n / b))
  end.

Definition call (self : t) (step : number) : result float :=
  bind (floordiv step (steps_per_epoch self)) (calculate_lr self).

(** The schedule the script builds; [steps_per_epoch] is [len(ds)]. *)
Definition script_schedule (steps : Z) : t :=
  {| init_lr := 0.00001;
     lr_after_warmup := 0.001;
     final_lr := 0.00001;
     warmup_epochs := 15;
     decay_epochs := 85;
     steps_per_epoch := steps |}.

(** The rate at a Python [int] epoch as a rational; [0] where there is
    none. *)
Definition rate (self : t) (epoch : Z) : Q :=
  match calculate_lr self (PyInt epoch) with
  | inr v => exact v
  | inl _ => 0%Q
  end.

(** *** The schedule as the specification words it

    A ramp is the line through two points [(x0, y0)] and [(x1, y1)], in
    exact arithmetic. *)
Local Open Scope Q_scope.

Definition ramp (x0 : Z) (y0 : Q) (x1 : Z) (y1 : Q) (x : Z) : Q :=
  y0 + (y1 - y0) * inject_Z (x - x0) / inject_Z (x1 - x0).

(** "A warmup ramp that rises linearly from init_lr at epoch 0 to
    lr_after_warmup over warmup_epochs epochs (reaching lr_after_warmup at
    epoch warmup_epochs)". *)
Definition spec_warmup (self : t) : Z → Q :=
  ramp 0 (exact (init_lr self))
       (warmup_epochs self) (exact (lr_after_warmup self)).

(** "A decay ramp that falls linearly from lr_after_warmup at epoch
    warmup_epochs to final_lr over decay_epochs epochs, clamped below at
    final_lr". *)
Definition spec_decay (self : t) (e : Z) : Q :=
  Qmax (exact (final_lr self))
       (ramp (warmup_epochs self) (exact (lr_after_warmup self))
             (warmup_epochs self + decay_epochs self)
             (exact (final_lr self)) e).

Definition spec_call (self : t) (step : Z) : Q :=
  let e := (step / steps_per_epoch self)%Z in
  Qmin (spec_warmup self e) (spec_decay self e).

(** The warmup ramp of the code: it reaches [lr_after_warmup] one epoch
    earlier, at [warmup_epochs - 1]. *)
Definition code_warmup (self : t) : Z → Q :=
  ramp 0 (exact (init_lr self))
       (warmup_epochs self - 1) (exact (lr_after_warmup self)).

(** *** Checks by evaluation

    The epochs [0 .. horizon] are those at which the script's schedule is
    evaluated below. *)
Definition horizon : Z := 1000.

Definition epochs (n : nat) : list Z := map Z.of_nat (seq 0 n).

Definition same (p q : Q) : bool :=
  (Qnum p =? Qnum q)%Z && (Qden p =? Qden q)%positive.

(** [calculate_lr] returns a finite rate that float32 holds exactly. *)
Definition returns_float32 (self : t) (e : Z) : bool :=
  match calculate_lr self (PyInt e) with
  | inr v =>
      match value v, value (float32 v) with
      | Some p, Some q => same p q
      | _, _ => false
      end
  | inl _ => false
  end.

Definition rising_at (self : t) (e : Z) : bool :=
  Qle_bool (rate self e) (rate self (e + 1)).

Definition falling_at (self : t) (e : Z) : bool :=
  Qle_bool (rate self (e + 1)) (rate self e).

Definition above_floor (self : t) (e : Z) : bool :=
  Qle_bool (exact (float32 (final_lr self))) (rate self e).

(** Within a relative distance [2^-24], half the spacing of float32, of
    the minimum of the code's two ramps. *)
Definition near_ramps (self : t) (e : Z) : bool :=
  let ideal := Qmin (code_warmup self e) (spec_decay self e) in
  Qle_bool (Qabs (rate self e - ideal)) (ideal * (1 # 2 ^ 24)).

End CustomSchedule.

(** ** Sample inputs *)

Module Demo.
Import Py.

(** A callback over a batch of two rows; the second prediction has no end
    token. *)
Definition demo_callback : DisplayOutputs.t unit :=
  DisplayOutputs.mk unit [tt; tt] [[2; 4; 3; 0]; [2; 5; 3; 0]] 2 3
    VectorizeChar.the_vocab (λ _ _, [[2; 5; 3; 6]; [2; 7; 8; 9]]).

(** A corpus of two clips. *)
Definition demo_wavs : list str :=
  [lit "./datasets/LJSpeech-1.1/wavs/LJ001-0001.wav";
   lit "./datasets/LJSpeech-1.1/wavs/LJ001-0002.wav"].

Definition demo_id_to_text : gmap str str :=
  <[lit "LJ001-0002" := lit "in being"]>
    (<[lit "LJ001-0001" := lit "Printing, in the only sense"]> ∅).

(** The metadata without the second clip. *)
Definition demo_incomplete : gmap str str :=
  <[lit "LJ001-0001" := lit "Printing"]> ∅.

End Demo.

(** ** More of Python's sequences *)

Module PySeq.
Import Py.

(** [s[k:]]: the complement of [s[:k]]. *)
Definition slice_from {A} (s : list A) (k : Z) : list A :=
  if 0 <=? k then drop (Z.to_nat k) s
  else drop (Z.to_nat (len s + k)) s.

Section Strip.
(** [str.isspace] of one character, from the Unicode character database. *)
Variable isspace : N → bool.

Fixpoint lstrip (s : str) : str :=
  match s with
  | [] => []
  | c :: s' => if isspace c then lstrip s' else s
  end.

Definition rstrip (s : str) : str := reverse (lstrip (reverse s)).

(** [s.strip()] *)
Definition strip (s : str) : str := rstrip (lstrip s).
End Strip.

(** The ASCII white space, for running examples. *)
Definition ascii_isspace (c : N) : bool :=
  ((N.leb 9 c && N.leb c 13) || (N.leb 28 c && N.leb c 32))%bool.

End PySeq.

(** ** Reading the metadata file *)

Module Metadata.
Import Py PySeq.

Definition pipe : N := 124.

Section Parse.
Variable isspace : N → bool.

(** The loop [for line in f], threading the dict [id_to_text]. *)
Fixpoint parse_loop (lines : list str) (id_to_text : gmap str str)
    : result (gmap str str) :=
  match lines with
  | [] => ok id_to_text
  | line :: lines' =>
      bind (index (split (strip isspace line) pipe) 0) (λ id,
      bind (index (split (strip isspace line) pipe) 2) (λ text,
      parse_loop lines' (<[id := text]> id_to_text)))
  end.

Definition parse_metadata (lines : list str) : result (gmap str str) :=
  parse_loop lines ∅.

(** The number of separators on a stripped line. *)
Definition pipe_count (line : str) : nat :=
  length (List.filter (N.eqb pipe) (strip isspace line)).

(** The first and third field of a line that has them. *)
Definition fields (line : str) : option (str * str) :=
  match split (strip isspace line) pipe with
  | id :: _ :: text :: _ => Some (id, text)
  | _ => None
  end.

(** The transcript of the last line that starts with [id]. *)
Definition last_transcript (id : str) (lines : list str) : option str :=
  last (omap (λ line,
                match fields line with
                | Some (id', text) => if decide (id' = id) then Some text else None
                | None => None
                end) lines).
End Parse.

End Metadata.

(** ** From records to batches *)

Module Pipeline.
Import Py PySeq Dataset Audio.

(** In this module [None] stands for the error TensorFlow raises.

    [tf.data.Dataset.from_tensor_slices] of a list of rows: the rows must
    form a rectangular tensor. *)
Definition from_tensor_slices {A} (rows : list (list A)) : option (list (list A)) :=
  match rows with
  | [] => Some []
  | row :: _ =>
      if forallb (λ r, Nat.eqb (length r) (length row)) rows
      then Some rows else None
  end.

(** [ds.batch(bs)]: consecutive groups of [bs] elements, the last one
    possibly smaller; the batch size must be positive. *)
Fixpoint batch_go {A} (fuel bs : nat) (l : list A) : list (list A) :=
  match fuel with
  | O => []
  | S fuel' =>
      match l with
      | [] => []
      | _ :: _ => take bs l :: batch_go fuel' bs (drop bs l)
      end
  end.

Definition batch {A} (bs : Z) (l : list A) : option (list (list A)) :=
  if bs <=? 0 then None else Some (batch_go (length l) (Z.to_nat bs) l).

Section Script.
Variable unicode_lower : str → str.
Context {F : Type} `{TensorNum F}.
Variable compressed_magnitude : str → list (list F).

(** One [{"source": x, "target": y}] batch, its members stacked. *)
Record batch_t := mk_batch {
  source : list (list (list F));
  target : list (list Z)
}.

(** The members of a batch are stacked into one tensor per key, which
    asks for sources of one shape (the targets are rows of one tensor
    already). *)
Definition shape (x : list (list F)) : list nat := map length x.

Definition stacked (members : list (list (list F) * list Z)) : batch_t :=
  {| source := map fst members; target := map snd members |}.

Definition stack (members : list (list (list F) * list Z)) : option batch_t :=
  match members with
  | [] => Some (stacked members)
  | first :: _ =>
      if forallb (λ m, bool_decide (shape (fst m) = shape (fst first))) members
      then Some (stacked members) else None
  end.

Fixpoint stack_all (groups : list (list (list (list F) * list Z)))
    : option (list batch_t) :=
  match groups with
  | [] => Some []
  | g :: groups' =>
      match stack g, stack_all groups' with
      | Some b, Some bs => Some (b :: bs)
      | _, _ => None
      end
  end.

Definition create_text_ds (vectorizer : VectorizeChar.t)
    (data : list sample) : option (list (list Z)) :=
  let texts := map text data in
  let text_ds := map (VectorizeChar.call unicode_lower vectorizer) texts in
  from_tensor_slices text_ds.

(** The dataset of an empty list of paths holds float32 elements, not
    strings, and mapping [path_to_audio] over it is refused where
    [tf.io.read_file] is traced. *)
Definition create_audio_ds (data : list sample)
    : option (list (list (list F))) :=
  let flist := map audio data in
  match flist with
  | [] => None
  | _ :: _ => Some (map (path_to_audio compressed_magnitude) flist)
  end.

Definition create_tf_dataset (vectorizer : VectorizeChar.t)
    (data : list sample) (bs : Z) : option (list batch_t) :=
  match create_audio_ds data with
  | None => None
  | Some audio_ds =>
      match create_text_ds vectorizer data with
      | None => None
      | Some text_ds =>
          let ds := zip audio_ds text_ds in
          match batch bs ds with
          | None => None
          | Some groups => stack_all groups
          end
      end
  end.

(** [int(len(data) * 0.99)]: a binary64 product, truncated. *)
Variable int_of_scaled : Z → Z.

(** [train_data, test_data = data[:split], data[split:]] *)
Definition train_test (data : list sample) : list sample * list sample :=
  let split := int_of_scaled (len data) in
  (slice_to data split, slice_from data split).

(** The callback the script builds on a batch. *)
Definition display_cb (batch : batch_t)
    (generate : list (list (list F)) → Z → list (list Z))
    (vectorizer : VectorizeChar.t) : DisplayOutputs.t (list (list F)) :=
  DisplayOutputs.mk _ (source batch) (target batch) 2 3
    (VectorizeChar.get_vocabulary vectorizer) generate.
End Script.

End Pipeline.

(** ** What a vectorized transcript shows as *)

Module Shown.
Import Py.

Definition hash : N := 35.

(** A character as it comes back from the vocabulary: itself when the
    vocabulary has it, ['#'] otherwise. *)
Definition shown (ch : N) : N :=
  if decide ([ch] ∈ VectorizeChar.the_vocab) then ch else hash.

End Shown.

(** ** More sample inputs *)

Module Samples.
Import Py PySeq Dataset Audio Pipeline.

(** Three lines of a metadata file; the first clip comes twice. *)
Definition sample_lines : list str :=
  [lit "LJ001-0001|Printing, raw|printing" ++ [10%N];
   lit "LJ001-0002|in being|in being" ++ [10%N];
   lit "  LJ001-0001|Printing, again|printing again" ++ [10%N]].

(** A line with one separator only. *)
Definition short_line : str := lit "LJ001-0003|no transcript" ++ [10%N].

(** A callback whose second predicted row holds an index outside the
    vocabulary. *)
Definition bad_callback : DisplayOutputs.t unit :=
  DisplayOutputs.mk unit [tt; tt; tt]
    [[2; 4; 3; 0]; [2; 5; 3; 0]; [2; 6; 3; 0]] 2 3
    VectorizeChar.the_vocab (λ _ _, [[2; 5; 3]; [2; 99; 3]; [2; 7; 3]]).

(** Three records. *)
Definition sample_data : list sample :=
  [mk_sample (lit "wavs/LJ001-0001.wav") (lit "Hi");
   mk_sample (lit "wavs/LJ001-0002.wav") (lit "in being");
   mk_sample (lit "wavs/LJ001-0003.wav") (lit "a-b")].

(** Clips too short for a single STFT frame. *)
Definition no_frames : str → list (list float) := λ _, [].

(** Clips of two STFT frames, the second one silent. *)
Definition two_frames : str → list (list float) :=
  λ _, [replicate bins 1%float; silent_frame].

Definition sample_batches : list (batch_t (F := float)) :=
  default [] (create_tf_dataset (λ s, s) no_frames (VectorizeChar.init 6)
                sample_data 2).

Definition sample_batch : batch_t (F := float) :=
  default (mk_batch [] []) (head sample_batches).

(** A model that answers ["<a>"] for every source. *)
Definition sample_generate (source : list (list (list float))) (start : Z)
    : list (list Z) :=
  map (λ _, [start; 4; 3]) source.

End Samples.

(** * Properties *)

(** ** Python sequences *)

Module PyFacts.
Import Py.

Lemma len_app {A} (l1 l2 : list A) : len (l1 ++ l2) = len l1 + len l2.
Proof. unfold len. rewrite length_app. lia. Qed.

Lemma len_nonneg {A} (l : list A) : 0 ≤ len l.
Proof. unfold len. lia. Qed.

Lemma slice_to_nonneg {A} (s : list A) (k : Z) :
  0 ≤ k → slice_to s k = take (Z.to_nat k) s.
Proof.
  intros Hk. unfold slice_to.
  destruct (Z.leb_spec 0 k) as [_ | Hlt]; [reflexivity | lia].
Qed.

Lemma slice_to_all {A} (s : list A) (k : Z) :
  len s ≤ k → slice_to s k = s.
Proof.
  intros Hk. pose proof (len_nonneg s).
  rewrite slice_to_nonneg by lia.
  apply take_ge. unfold len in Hk. lia.
Qed.

Lemma index_nat {A} (l : list A) (i : nat) (x : A) :
  l !! i = Some x → index l (Z.of_nat i) = ok x.
Proof.
  intros Hx. unfold index.
  destruct (Z.ltb_spec (Z.of_nat i) 0) as [Hneg | _]; [lia |].
  destruct (Z.ltb_spec (Z.of_nat i) 0) as [Hneg | _]; [lia |].
  rewrite Nat2Z.id, Hx. reflexivity.
Qed.

Lemma get_Some {V} (d : gmap str V) (k : str) (dflt v : V) :
  d !! k = Some v → get d k dflt = v.
Proof. unfold get. intros ->. reflexivity. Qed.

Lemma get_None {V} (d : gmap str V) (k : str) (dflt : V) :
  d !! k = None → get d k dflt = dflt.
Proof. unfold get. intros ->. reflexivity. Qed.

Lemma enumerate_snoc {A} (l : list A) (x : A) :
  enumerate (l ++ [x]) = enumerate l ++ [(len l, x)].
Proof.
  unfold enumerate, len. rewrite imap_app. simpl.
  rewrite Nat.add_0_r. reflexivity.
Qed.

End PyFacts.

(** ** VectorizeChar *)

Module VectorizeCharFacts.
Import Py PyFacts VectorizeChar.

(** After the loop over [enumerate(vocab)], a character is bound to the
    position of its occurrence in a duplicate-free vocabulary. *)
Lemma index_table_lookup (vocab : list str) (ch : str) (i : Z) :
  NoDup vocab →
  index_table vocab !! ch = Some i ↔
  0 ≤ i ∧ vocab !! Z.to_nat i = Some ch.
Proof.
  unfold index_table. revert ch i.
  induction vocab as [| x vocab IH] using rev_ind; intros ch i Hnd.
  - simpl. rewrite lookup_empty, lookup_nil.
    split; [discriminate | intros [_ ?]; discriminate].
  - apply NoDup_app in Hnd as (Hnd & Hfresh & _).
    rewrite enumerate_snoc, foldl_app. simpl.
    destruct (decide (x = ch)) as [-> | Hne].
    + rewrite lookup_insert_eq. split.
      * intros [= <-]. split; [apply len_nonneg |].
        unfold len. rewrite Nat2Z.id.
        rewrite lookup_app_r, Nat.sub_diag by lia. reflexivity.
      * intros [Hi Hlk].
        destruct (decide (Z.to_nat i < length vocab)%nat) as [Hlt | Hge].
        -- rewrite lookup_app_l in Hlk by lia.
           exfalso. apply (Hfresh ch); [| apply list_elem_of_singleton; reflexivity].
           eapply list_elem_of_lookup_2; eassumption.
        -- apply lookup_lt_Some in Hlk. rewrite length_app in Hlk.
           simpl in Hlk. unfold len. f_equal. lia.
    + rewrite lookup_insert_ne by assumption. rewrite IH by assumption.
      split; intros [Hi Hlk]; split; try assumption.
      * rewrite lookup_app_l; [assumption |].
        eapply lookup_lt_Some; eassumption.
      * destruct (decide (Z.to_nat i < length vocab)%nat) as [Hlt | Hge].
        -- rewrite lookup_app_l in Hlk by lia. assumption.
        -- rewrite lookup_app_r in Hlk by lia.
           apply list_lookup_singleton_Some in Hlk as [_ ?]. congruence.
Qed.

Lemma the_vocab_NoDup : NoDup the_vocab.
Proof. apply (bool_decide_unpack _). vm_compute. exact I. Qed.

Lemma the_vocab_length : length the_vocab = 34%nat.
Proof. reflexivity. Qed.

Lemma encode_range (ch : N) : 0 ≤ encode ch < 34.
Proof.
  unfold encode.
  destruct (index_table the_vocab !! [ch]) as [i |] eqn:Hlk;
    [rewrite (get_Some _ _ _ _ Hlk) | rewrite (get_None _ _ _ Hlk); lia].
  apply index_table_lookup in Hlk as [Hi Hlk]; [| apply the_vocab_NoDup].
  apply lookup_lt_Some in Hlk. rewrite the_vocab_length in Hlk. lia.
Qed.

Lemma encode_decode (ch : N) :
  [ch] ∈ the_vocab → index the_vocab (encode ch) = ok [ch].
Proof.
  intros Hin. apply list_elem_of_lookup_1 in Hin as [j Hj].
  assert (index_table the_vocab !! [ch] = Some (Z.of_nat j)) as Hlk.
  { apply index_table_lookup; [apply the_vocab_NoDup |].
    rewrite Nat2Z.id. split; [lia | assumption]. }
  unfold encode. rewrite (get_Some _ _ _ _ Hlk).
  apply index_nat. assumption.
Qed.

Lemma encode_start : encode 60 = 2.
Proof. vm_compute. reflexivity. Qed.

Lemma encode_end : encode 62 = 3.
Proof. vm_compute. reflexivity. Qed.

Section Shape.
Variable unicode_lower : str → str.

(** With room for the two markers, the output is the start index, the
    codes of the kept characters, the end index and the padding. *)
Lemma call_unfold (n : Z) (text : str) :
  2 ≤ n →
  let kept := take (Z.to_nat (n - 2)) (lower unicode_lower text) in
  call unicode_lower (init n) text =
    2 :: map encode kept ++ 3 ::
      replicate (Z.to_nat (n - 2) - length kept) 0.
Proof.
  intros Hn kept. unfold call, init.
  cbn [max_len char_to_idx].
  rewrite slice_to_nonneg by lia. fold kept.
  change (lit "<") with [60%N]. change (lit ">") with [62%N].
  change (λ ch : N, get (index_table the_vocab) [ch] 1) with encode.
  rewrite !map_app, !len_app. cbn [map app].
  rewrite encode_start, encode_end.
  rewrite <- app_assoc. cbn [app]. do 3 f_equal.
  unfold repeat_list, len. cbn [length]. f_equal. lia.
Qed.

(** C1.  For [max_len >= 2] (so for the configured 200) the output of
    [VectorizeChar] has length exactly [max_len], starts with the start
    index 2 and holds only indices in [0, 34); when the lowercased
    transcript has length [L <= max_len - 2], position [L + 1] holds the
    end index 3 and every later position holds the pad index 0. *)
Theorem vectorize_shape (n : Z) (text : str) :
  2 ≤ n →
  let out := call unicode_lower (init n) text in
  let L := len (lower unicode_lower text) in
  len out = n ∧
  out !! 0%nat = Some 2 ∧
  Forall (λ i, 0 ≤ i < 34) out ∧
  (L ≤ n - 2 →
     out !! Z.to_nat (L + 1) = Some 3 ∧
     ∀ j, L + 1 < j < n → out !! Z.to_nat j = Some 0).
Proof.
  intros Hn out L. subst out. rewrite call_unfold by assumption.
  set (t := lower unicode_lower text) in *.
  set (kept := take (Z.to_nat (n - 2)) t).
  assert (length kept ≤ Z.to_nat (n - 2))%nat as Hkept
    by (subst kept; rewrite length_take; lia).
  repeat split.
  - unfold len. cbn [length].
    rewrite length_app, length_map. cbn [length].
    rewrite length_replicate. lia.
  - constructor; [lia |]. apply Forall_app. split.
    + apply Forall_forall. intros i Hi.
      apply list_elem_of_fmap in Hi as (ch & -> & _). apply encode_range.
    + constructor; [lia |]. apply Forall_replicate. lia.
  - assert (kept = t) as -> by (apply take_ge; unfold L, len in *; lia).
    rewrite app_comm_cons, lookup_app_r
      by (cbn [length]; rewrite length_map; unfold L, len; lia).
    replace (Z.to_nat (L + 1) - length (2%Z :: map encode t))%nat with 0%nat
      by (cbn [length]; rewrite length_map; unfold L, len; lia).
    reflexivity.
  - intros j Hj.
    assert (kept = t) as -> by (apply take_ge; unfold L, len in *; lia).
    rewrite app_comm_cons, lookup_app_r
      by (cbn [length]; rewrite length_map; unfold L, len in *; lia).
    replace (Z.to_nat j - length (2%Z :: map encode t))%nat
      with (S (Z.to_nat j - length t - 2))
      by (cbn [length]; rewrite length_map; unfold L, len in *; lia).
    rewrite lookup_cons. apply lookup_replicate_2.
    unfold L, len in *. lia.
Qed.

(** Decoding the codes of vocabulary characters gives them back. *)
Lemma join_encode (t : str) :
  Forall (λ ch, [ch] ∈ the_vocab) t →
  DisplayOutputs.join_tokens the_vocab (map encode t) = ok t.
Proof.
  induction 1 as [| ch t Hch _ IH]; [reflexivity |].
  cbn [map DisplayOutputs.join_tokens].
  rewrite (encode_decode ch Hch), IH. reflexivity.
Qed.

(** C2.  When the lowercased transcript has length [L <= max_len - 2]
    and all its characters are in the vocabulary, reading elements 1 to
    [L] of the output back through the vocabulary list gives the
    lowercased transcript. *)
Theorem vectorize_roundtrip (n : Z) (text : str) :
  let t := lower unicode_lower text in
  len t ≤ n - 2 →
  Forall (λ ch, [ch] ∈ the_vocab) t →
  DisplayOutputs.join_tokens (get_vocabulary (init n))
    (take (length t) (drop 1 (call unicode_lower (init n) text))) = ok t.
Proof.
  intros t HL Hvocab. pose proof (len_nonneg t) as Hlen.
  rewrite call_unfold by lia. fold t.
  rewrite (take_ge t (Z.to_nat (n - 2))) by (unfold len in *; lia).
  rewrite skipn_cons, drop_0. rewrite <- (length_map encode t) at 1.
  rewrite take_app_length. apply join_encode. assumption.
Qed.

(** C3, as the code has it: ['a'] sits at index 4 of the vocabulary, so
    ["ab"] with [max_len = 6] becomes [[2; 4; 5; 3; 0; 0]]. *)
Theorem vectorize_ab :
  call unicode_lower (init 6) (lit "ab") = [2; 4; 5; 3; 0; 0].
Proof. vm_compute. reflexivity. Qed.

End Shape.

End VectorizeCharFacts.

(** ** The audio featurizer *)

Module AudioFacts.
Import Py PyFacts Audio.

Section Shape.
Context {F : Type} `{TensorNum F}.
Variable compressed_magnitude : str → list (list F).

Lemma pad_then_slice (x : list (list F)) :
  slice_to (pad_rows x pad_len) pad_len =
    take 2754 x ++ replicate (2754 - length x) (replicate bins fzero).
Proof.
  unfold pad_rows, repeat_list, pad_len.
  rewrite slice_to_nonneg by lia.
  change (Z.to_nat 2754) with 2754%nat.
  rewrite take_app, take_replicate. do 2 f_equal. lia.
Qed.

(** C4.  Whatever the number [n] of STFT frames, [path_to_audio]
    returns exactly 2754 frames: the first 2754 normalised frames
    (later ones are dropped), followed by [2754 - n] zero frames when
    there are fewer. *)
Theorem path_to_audio_frames (path : str) :
  let x := map normalise_row (compressed_magnitude path) in
  let n := length (compressed_magnitude path) in
  len (path_to_audio compressed_magnitude path) = 2754 ∧
  path_to_audio compressed_magnitude path =
    take 2754 x ++ replicate (2754 - n) (replicate bins fzero).
Proof.
  intros x n. unfold path_to_audio. fold x.
  rewrite pad_then_slice.
  assert (length x = n) as Hn by (subst x n; apply length_map).
  rewrite Hn. split; [| reflexivity].
  unfold len. rewrite length_app, length_take, length_replicate. lia.
Qed.

(** A frame among the first 2754 comes out normalised, with no test on
    the way. *)
Lemma path_to_audio_row (path : str) (i : nat) (row : list F) :
  (i < 2754)%nat →
  compressed_magnitude path !! i = Some row →
  path_to_audio compressed_magnitude path !! i = Some (normalise_row row).
Proof.
  intros Hi Hrow. unfold path_to_audio. rewrite pad_then_slice.
  rewrite lookup_app_l
    by (rewrite length_take, length_map;
        apply lookup_lt_Some in Hrow; lia).
  rewrite lookup_take_lt by assumption.
  rewrite list_lookup_fmap, Hrow. reflexivity.
Qed.
End Shape.

Section Silence.
Context {F : Type} `{ExactZero F}.

Lemma reduce_sum_zeros (n : nat) : reduce_sum (replicate n fzero) = fzero.
Proof.
  unfold reduce_sum. induction n as [| n IH]; [reflexivity |].
  cbn [replicate foldl]. rewrite zero_add. exact IH.
Qed.

Lemma silent_frame_mean : reduce_mean silent_frame = fzero.
Proof.
  unfold reduce_mean, silent_frame.
  rewrite reduce_sum_zeros, length_replicate. apply zero_over_bins.
Qed.

Lemma silent_frame_std : reduce_std silent_frame = fzero.
Proof.
  unfold reduce_std. rewrite silent_frame_mean.
  unfold silent_frame at 1. rewrite fmap_replicate, zero_sub, zero_mul.
  fold silent_frame. rewrite silent_frame_mean. apply zero_sqrt.
Qed.

Lemma silent_frame_normalised :
  normalise_row silent_frame = replicate bins (fdiv fzero fzero).
Proof.
  unfold normalise_row. rewrite silent_frame_mean, silent_frame_std.
  unfold silent_frame. rewrite fmap_replicate, zero_sub. reflexivity.
Qed.

(** C5.  A frame whose magnitudes are all equal (silence: every bin zero)
    has standard deviation zero; [path_to_audio] divides by it all the
    same, with no test, and every entry of the frame comes out as the
    quotient of zero by zero. *)
Theorem normalisation_divides_by_zero
    (compressed_magnitude : str → list (list F)) (path : str) (i : nat) :
  (i < 2754)%nat →
  compressed_magnitude path !! i = Some silent_frame →
  Forall (λ v, v = fzero) silent_frame ∧
  reduce_std silent_frame = fzero ∧
  path_to_audio compressed_magnitude path !! i
    = Some (replicate bins (fdiv fzero fzero)).
Proof.
  intros Hi Hrow. split; [apply Forall_replicate; reflexivity |].
  split; [apply silent_frame_std |].
  rewrite (path_to_audio_row _ _ _ _ Hi Hrow).
  rewrite silent_frame_normalised. reflexivity.
Qed.
End Silence.

(** Binary64 is exact on zero, and there zero over zero is NaN. *)
#[export] Instance float_exact_zero : ExactZero float.
Proof. split; vm_compute; reflexivity. Qed.

Lemma float_zero_over_zero : fdiv (fzero : float) fzero = nan.
Proof. vm_compute. reflexivity. Qed.

End AudioFacts.

(** ** The learning-rate schedule *)

Module CustomScheduleFacts.
Import Py PyFloat CustomSchedule.
Local Open Scope Q_scope.

Lemma forallb_epochs (P : Z → bool) (n : nat) (e : Z) :
  forallb P (epochs n) = true → (0 ≤ e < Z.of_nat n)%Z → P e = true.
Proof.
  intros Hall He. rewrite forallb_forall in Hall. apply Hall.
  unfold epochs. apply in_map_iff. exists (Z.to_nat e).
  split; [lia |]. apply in_seq. lia.
Qed.

Lemma same_eq (p q : Q) : same p q = true → p = q.
Proof.
  destruct p as [a b], q as [c d]. unfold same. cbn [Qnum Qden].
  intros H. apply andb_prop in H as [Hn Hd].
  apply Z.eqb_eq in Hn. apply Pos.eqb_eq in Hd. congruence.
Qed.

(** [calculate_lr] does not read [steps_per_epoch]. *)
Lemma calculate_lr_steps (steps : Z) (epoch : number) :
  calculate_lr (script_schedule steps) epoch
  = calculate_lr (script_schedule 1) epoch.
Proof. reflexivity. Qed.

(** The script's schedule, evaluated at every epoch up to the horizon. *)
Lemma script_returns_float32 :
  forallb (returns_float32 (script_schedule 1)) (epochs 1001) = true.
Proof. vm_compute. reflexivity. Qed.

Lemma script_rising :
  forallb (rising_at (script_schedule 1)) (epochs 15) = true.
Proof. vm_compute. reflexivity. Qed.

Lemma script_falling :
  forallb (λ e, falling_at (script_schedule 1) (15 + e)) (epochs 985) = true.
Proof. vm_compute. reflexivity. Qed.

Lemma script_above_floor :
  forallb (above_floor (script_schedule 1)) (epochs 1001) = true.
Proof. vm_compute. reflexivity. Qed.

Lemma script_near_ramps :
  forallb (near_ramps (script_schedule 1)) (epochs 1001) = true.
Proof. vm_compute. reflexivity. Qed.

Lemma returns_float32_inv (self : t) (e : Z) :
  returns_float32 self e = true →
  ∃ v, calculate_lr self (PyInt e) = ok v ∧
       value v = Some (rate self e) ∧
       value (float32 v) = Some (rate self e).
Proof.
  unfold returns_float32, rate, exact.
  destruct (calculate_lr self (PyInt e)) as [err | v]; [discriminate |].
  destruct (value v) as [p |] eqn:Hp; [| discriminate].
  destruct (value (float32 v)) as [q |] eqn:Hq; [| discriminate].
  intros Hsame. apply same_eq in Hsame. subst q. exists v. auto.
Qed.

(** Steps of one epoch add up. *)
Lemma chain_up (f : Z → Q) (a b : Z) :
  (∀ e, (a ≤ e < b)%Z → f e <= f (e + 1)%Z) →
  ∀ e1 e2, (a ≤ e1)%Z → (e1 ≤ e2)%Z → (e2 ≤ b)%Z → f e1 <= f e2.
Proof.
  intros Hstep e1 e2 Ha H12 Hb.
  replace e2 with (e1 + Z.of_nat (Z.to_nat (e2 - e1)))%Z by lia.
  assert (e1 + Z.of_nat (Z.to_nat (e2 - e1)) ≤ b)%Z as Hn by lia.
  induction (Z.to_nat (e2 - e1)) as [| n IH].
  - rewrite Z.add_0_r. apply Qle_refl.
  - eapply Qle_trans; [apply IH; lia |].
    replace (e1 + Z.of_nat (S n))%Z with (e1 + Z.of_nat n + 1)%Z by lia.
    apply Hstep. lia.
Qed.

Lemma chain_down (f : Z → Q) (a b : Z) :
  (∀ e, (a ≤ e < b)%Z → f (e + 1)%Z <= f e) →
  ∀ e1 e2, (a ≤ e1)%Z → (e1 ≤ e2)%Z → (e2 ≤ b)%Z → f e2 <= f e1.
Proof.
  intros Hstep e1 e2 Ha H12 Hb.
  replace e2 with (e1 + Z.of_nat (Z.to_nat (e2 - e1)))%Z by lia.
  assert (e1 + Z.of_nat (Z.to_nat (e2 - e1)) ≤ b)%Z as Hn by lia.
  induction (Z.to_nat (e2 - e1)) as [| n IH].
  - rewrite Z.add_0_r. apply Qle_refl.
  - eapply Qle_trans; [| apply IH; lia].
    replace (e1 + Z.of_nat (S n))%Z with (e1 + Z.of_nat n + 1)%Z by lia.
    apply Hstep. lia.
Qed.



End CustomScheduleFacts.

(** ** The display callback *)

Module DisplayOutputsFacts.
Import Py PyFacts DisplayOutputs.

Lemma index_valid {A} (l : list A) (i : Z) :
  - len l ≤ i < len l → ∃ x, index l i = ok x.
Proof.
  intros Hi. unfold index.
  set (j := if i <? 0 then len l + i else i).
  assert (0 ≤ j < len l) as Hj
    by (subst j; destruct (Z.ltb_spec i 0); lia).
  destruct (Z.ltb_spec j 0) as [? | _]; [lia |].
  destruct (l !! Z.to_nat j) as [x |] eqn:Hx; [eauto |].
  apply lookup_ge_None in Hx. unfold len in Hj. lia.
Qed.

Lemma index_token (table : list str) (i : Z) :
  valid_index table i → index table i = ok (token table i).
Proof.
  intros Hi. destruct (index_valid table i Hi) as [tok Htok].
  unfold token. rewrite Htok. reflexivity.
Qed.

Lemma join_tokens_decode (table : list str) (row : list Z) :
  Forall (valid_index table) row →
  join_tokens table row = ok (decode table row).
Proof.
  induction 1 as [| i row Hi _ IH]; [reflexivity |].
  cbn [join_tokens]. rewrite (index_token _ _ Hi), IH. reflexivity.
Qed.

(** The loop with its [break] reads exactly the prefix of the row that
    ends at the first end token, and appends its tokens. *)
Lemma prediction_loop_through_end
    (table : list str) (end_idx : Z) (row : list Z) (acc : str) :
  prediction_loop table end_idx row acc =
    bind (join_tokens table (through_end end_idx row))
         (λ s, ok (acc ++ s)).
Proof.
  revert acc. induction row as [| idx row IH]; intros acc.
  - cbn. rewrite app_nil_r. reflexivity.
  - cbn [prediction_loop through_end].
    destruct (Z.eqb_spec idx end_idx) as [Heq | Hne].
    + cbn [join_tokens]. destruct (index table idx) as [e | tok]; cbn.
      * reflexivity.
      * rewrite app_nil_r. reflexivity.
    + cbn [join_tokens]. destruct (index table idx) as [e | tok]; cbn [bind].
      * reflexivity.
      * rewrite IH.
        destruct (join_tokens table (through_end end_idx row)) as [e | s];
          cbn; [reflexivity |].
        rewrite app_assoc. reflexivity.
Qed.

Section Callback.
Context {Spectrogram : Type}.
Implicit Types (self : t Spectrogram) (log : list (event Spectrogram)).

Lemma nth_lookup_index {A} (l : list A) (i : nat) (d : A) :
  (i < length l)%nat → index l (Z.of_nat i) = ok (nth i l d).
Proof.
  intros Hi. apply index_nat.
  destruct (nth_lookup_or_length l i d) as [Hlk | Hge]; [exact Hlk | lia].
Qed.

Lemma show_row_lines self (preds : list (list Z)) (i : nat) log :
  (i < length (batch_target self))%nat →
  (i < length preds)%nat →
  Forall (valid_index (idx_to_char self)) (nth i (batch_target self) []) →
  Forall (valid_index (idx_to_char self))
         (through_end (target_end_token_idx self) (nth i preds [])) →
  show_row self (batch_target self) preds (Z.of_nat i) log =
    (log ++ row_lines self preds i, ok tt).
Proof.
  intros Ht Hp Hvt Hvp. unfold show_row, seq_io, lift, emit.
  rewrite (nth_lookup_index _ _ [] Ht). cbn [ok].
  rewrite (join_tokens_decode _ _ Hvt). cbn [ok].
  rewrite (nth_lookup_index _ _ [] Hp). cbn [ok].
  rewrite prediction_loop_through_end.
  rewrite (join_tokens_decode _ _ Hvp). cbn [ok bind app].
  rewrite <- app_assoc. reflexivity.
Qed.

Lemma for_each_lines (body : Z → io Spectrogram unit)
    (lines : nat → list (event Spectrogram)) (rows : list nat) log :
  (∀ i log', i ∈ rows → body (Z.of_nat i) log' = (log' ++ lines i, ok tt)) →
  for_each body (map Z.of_nat rows) log =
    (log ++ flat_map lines rows, ok tt).
Proof.
  revert log. induction rows as [| i rows IH]; intros log Hbody.
  - cbn. rewrite app_nil_r. reflexivity.
  - cbn [map for_each flat_map]. unfold seq_io.
    rewrite Hbody by (apply list_elem_of_here).
    rewrite IH by (intros; apply Hbody; apply list_elem_of_further; assumption).
    rewrite <- app_assoc. reflexivity.
Qed.
(** Whatever happens inside, a row only appends to the log. *)
Lemma show_row_extends self (target preds : list (list Z)) (i : Z) log :
  ∃ evs r, show_row self target preds i log = (log ++ evs, r).
Proof.
  unfold show_row, seq_io, lift, emit.
  destruct (index target i) as [e | trow];
    [exists [], (inl e); rewrite app_nil_r; reflexivity |].
  destruct (join_tokens (idx_to_char self) trow) as [e | ttext];
    [exists [], (inl e); rewrite app_nil_r; reflexivity |].
  destruct (index preds i) as [e | prow];
    [exists [], (inl e); rewrite app_nil_r; reflexivity |].
  destruct (prediction_loop _ _ prow []) as [e | ptext];
    [exists [], (inl e); rewrite app_nil_r; reflexivity |].
  eexists _, _. rewrite <- app_assoc. reflexivity.
Qed.

Lemma for_each_extends (body : Z → io Spectrogram unit) (range : list Z) log :
  (∀ i log', ∃ evs r, body i log' = (log' ++ evs, r)) →
  ∃ evs r, for_each body range log = (log ++ evs, r).
Proof.
  intros Hbody. revert log.
  induction range as [| i range IH]; intros log.
  - exists [], (ok tt). cbn. rewrite app_nil_r. reflexivity.
  - cbn [for_each]. unfold seq_io.
    destruct (Hbody i log) as (evs & [e | []] & ->).
    + eauto.
    + destruct (IH (log ++ evs)) as (evs' & r & ->).
      exists (evs ++ evs'), r. rewrite app_assoc. reflexivity.
Qed.

(** C8.  [on_epoch_end] returns at once, with no call of the generation
    routine and nothing printed, when [epoch mod 5] is not zero; when it
    is zero the generation routine is called, and (all indices being
    valid table indices) each row [i] of the batch gets its two lines,
    the prediction line holding the decoded characters of row [i] of
    the predictions up to and including the first end-token index, the
    whole row when there is none. *)
Theorem on_epoch_end_displays self (epoch : Z) log :
  let source := batch_source self in
  let start := target_start_token_idx self in
  let preds := model_generate self source start in
  (epoch mod 5 ≠ 0 → on_epoch_end self epoch log = (log, ok tt)) ∧
  (epoch mod 5 = 0 →
     ∃ evs r, on_epoch_end self epoch log =
                (log ++ EvGenerate source start :: evs, r)) ∧
  (epoch mod 5 = 0 →
     (length source ≤ length (batch_target self))%nat →
     (length source ≤ length preds)%nat →
     (∀ i, (i < length source)%nat →
           Forall (valid_index (idx_to_char self))
                  (nth i (batch_target self) []) ∧
           Forall (valid_index (idx_to_char self))
                  (through_end (target_end_token_idx self) (nth i preds []))) →
     on_epoch_end self epoch log =
       (log ++ EvGenerate source start
            :: flat_map (row_lines self preds) (seq 0 (length source)),
        ok tt)).
Proof.
  intros source start preds. unfold on_epoch_end.
  fold source. fold start. fold preds.
  destruct (Z.eqb_spec (epoch mod 5) 0) as [Hz | Hnz]; cbn [negb].
  - split; [intros; contradiction |]. split.
    + intros _. unfold seq_io, emit.
      destruct (for_each_extends
                  (show_row self (batch_target self) preds)
                  (range (len source))
                  (log ++ [EvGenerate source start]))
        as (evs & r & ->); [intros; apply show_row_extends |].
      exists evs, r. rewrite <- app_assoc. reflexivity.
    + intros _ Ht Hp Hvalid. unfold seq_io, emit, range, len.
      rewrite Nat2Z.id.
      rewrite (for_each_lines _ (row_lines self preds)).
      * rewrite <- app_assoc. reflexivity.
      * intros i log' Hi. apply elem_of_seq in Hi.
        destruct (Hvalid i) as [Hvt Hvp]; [lia |].
        apply show_row_lines; [lia | lia | assumption | assumption].
  - split; [intros _; reflexivity |].
    split; intros; contradiction.
Qed.
End Callback.

End DisplayOutputsFacts.

(** ** The dataset filter *)

Module DatasetFacts.
Import Py PyFacts Dataset.

Lemma split_go_nonempty (sep : N) (s cur : str) : split_go sep s cur ≠ [].
Proof.
  revert cur. induction s as [| c s IH]; intros cur; cbn [split_go].
  - discriminate.
  - destruct (N.eqb c sep); [discriminate | apply IH].
Qed.

Lemma index_last_nonempty {A} (l : list A) :
  l ≠ [] → ∃ x, index l (-1) = ok x.
Proof.
  intros Hne. apply DisplayOutputsFacts.index_valid.
  destruct l; [contradiction |]. unfold len. cbn [length]. lia.
Qed.

Lemma index_first_nonempty {A} (l : list A) :
  l ≠ [] → ∃ x, index l 0 = ok x.
Proof.
  intros Hne. apply DisplayOutputsFacts.index_valid.
  destruct l; [contradiction |]. unfold len. cbn [length]. lia.
Qed.

(** Deriving the id of a path never raises. *)
Lemma wav_id_total (w : str) : ∃ id, wav_id w = ok id.
Proof.
  unfold wav_id, split.
  destruct (index_last_nonempty _ (split_go_nonempty slash w [])) as [base ->].
  cbn [bind ok].
  apply index_first_nonempty, split_go_nonempty.
Qed.

Section Loop.
Variables (id_to_text : gmap str str) (maxlen : Z).

Local Abbreviation kept := (Dataset.kept id_to_text maxlen).

Lemma get_data_loop_present (wavs : list str) (data : list sample) :
  Forall (λ w, is_Some (transcript id_to_text w)) wavs →
  get_data_loop id_to_text maxlen wavs data = ok (data ++ omap kept wavs).
Proof.
  intros Hall. revert data.
  induction Hall as [| w wavs [t Ht] _ IH]; intros data.
  - cbn. rewrite app_nil_r. reflexivity.
  - cbn [get_data_loop omap list_omap]. unfold kept at 1. rewrite Ht.
    unfold transcript in Ht.
    destruct (wav_id w) as [e | id]; [discriminate |].
    cbn [bind]. unfold getitem. rewrite Ht. cbn [bind ok].
    destruct (len t <? maxlen).
    + rewrite IH, <- app_assoc. reflexivity.
    + apply IH.
Qed.

Lemma get_data_loop_missing (wavs : list str) (data : list sample) :
  Exists (λ w, transcript id_to_text w = None) wavs →
  ∃ id, get_data_loop id_to_text maxlen wavs data = raise (KeyError id)
        ∧ id_to_text !! id = None.
Proof.
  revert data. induction wavs as [| w wavs IH]; intros data Hex.
  - inversion Hex.
  - cbn [get_data_loop].
    destruct (wav_id_total w) as [id Hid]. rewrite Hid. cbn [bind ok].
    unfold getitem.
    destruct (id_to_text !! id) as [t |] eqn:Hlk.
    + assert (Exists (λ w, transcript id_to_text w = None) wavs) as Hex'.
      { apply Exists_cons in Hex as [Hhead | Htail]; [| assumption].
        unfold transcript in Hhead. rewrite Hid in Hhead.
        cbn in Hhead. congruence. }
      cbn [bind ok]. destruct (len t <? maxlen); apply IH; assumption.
    + exists id. split; [reflexivity | assumption].
Qed.

Lemma omap_kept_audio (wavs : list str) :
  map audio (omap kept wavs) =
    List.filter (short_enough id_to_text maxlen) wavs.
Proof.
  induction wavs as [| w wavs IH]; [reflexivity |].
  cbn [omap list_omap List.filter]. unfold kept at 1, short_enough at 1.
  destruct (transcript id_to_text w) as [t |]; [| exact IH].
  destruct (len t <? maxlen); [| exact IH].
  cbn [map audio]. rewrite IH. reflexivity.
Qed.

Lemma omap_kept_text (wavs : list str) :
  Forall (λ s, transcript id_to_text (audio s) = Some (text s)
               ∧ len (text s) < maxlen)
         (omap kept wavs).
Proof.
  induction wavs as [| w wavs IH]; [constructor |].
  cbn [omap list_omap]. unfold kept at 1.
  destruct (transcript id_to_text w) as [t |] eqn:Ht; [| exact IH].
  destruct (Z.ltb_spec (len t) maxlen); [| exact IH].
  constructor; [| exact IH]. cbn [audio text]. auto.
Qed.

(** C9.  When the mapping has an entry for the id of every path,
    [get_data] returns, in the order of the input list, one record for
    each path whose transcript is strictly shorter than [maxlen], the
    record holding that path and its transcript; the other paths are
    left out. *)
Theorem get_data_filters (wavs : list str) :
  Forall (λ w, is_Some (transcript id_to_text w)) wavs →
  ∃ data,
    get_data wavs id_to_text maxlen = ok data ∧
    map audio data = List.filter (short_enough id_to_text maxlen) wavs ∧
    Forall (λ s, transcript id_to_text (audio s) = Some (text s)
                 ∧ len (text s) < maxlen) data.
Proof.
  intros Hall. exists (omap kept wavs). split; [| split].
  - unfold get_data. rewrite get_data_loop_present by assumption.
    reflexivity.
  - apply omap_kept_audio.
  - apply omap_kept_text.
Qed.

(** C10.  When some path of the list has an id that the mapping does
    not hold, [get_data] raises [KeyError] for an absent id and returns
    no list. *)
Theorem get_data_key_error (wavs : list str) :
  Exists (λ w, transcript id_to_text w = None) wavs →
  ∃ id, get_data wavs id_to_text maxlen = raise (KeyError id)
        ∧ id_to_text !! id = None.
Proof. apply get_data_loop_missing. Qed.
End Loop.

End DatasetFacts.

(** * Further properties *)

(** ** VectorizeChar: truncation, unknown characters, small [max_len] *)

Module VectorizeCharMore.
Import Py PyFacts VectorizeChar VectorizeCharFacts.

Lemma encode_unknown (ch : N) : [ch] ∉ the_vocab → encode ch = 1.
Proof.
  intros Hout. unfold encode.
  destruct (index_table the_vocab !! [ch]) as [i |] eqn:Hlk;
    [| apply get_None; exact Hlk].
  apply index_table_lookup in Hlk as [_ Hlk]; [| apply the_vocab_NoDup].
  exfalso. apply Hout. eapply list_elem_of_lookup_2. eassumption.
Qed.

Lemma encode_known (ch : N) :
  [ch] ∈ the_vocab → ∃ j : nat, the_vocab !! j = Some [ch] ∧ encode ch = Z.of_nat j.
Proof.
  intros Hin. apply list_elem_of_lookup_1 in Hin as [j Hj]. exists j.
  split; [assumption |]. unfold encode. apply get_Some.
  apply index_table_lookup; [apply the_vocab_NoDup |].
  rewrite Nat2Z.id. split; [lia | assumption].
Qed.

Section More.
Variable unicode_lower : str → str.

(** X1.  A transcript with more than [max_len - 2] lowercased characters
    is cut: the output is the start index, the codes of the first
    [max_len - 2] characters and the end index, with no padding; the
    characters beyond are lost. *)
Theorem vectorize_truncates (n : Z) (text : str) :
  2 ≤ n →
  n - 2 ≤ len (lower unicode_lower text) →
  call unicode_lower (init n) text =
    2 :: map encode (take (Z.to_nat (n - 2)) (lower unicode_lower text)) ++ [3].
Proof.
  intros Hn HL. rewrite call_unfold by assumption.
  rewrite length_take. unfold len in HL.
  replace (Z.to_nat (n - 2) - Z.to_nat (n - 2) `min` length (lower unicode_lower text))%nat
    with 0%nat by lia.
  reflexivity.
Qed.

(** X2.  Every kept character is encoded by its position in the
    vocabulary list, and by 1 (the position of ['#']) when the vocabulary
    does not have it. *)
Theorem vectorize_codes (n : Z) (text : str) (i : nat) (ch : N) :
  2 ≤ n →
  lower unicode_lower text !! i = Some ch →
  Z.of_nat i < n - 2 →
  let out := call unicode_lower (init n) text in
  ([ch] ∈ the_vocab →
     ∃ j : nat, the_vocab !! j = Some [ch] ∧ out !! S i = Some (Z.of_nat j)) ∧
  ([ch] ∉ the_vocab → out !! S i = Some 1).
Proof.
  intros Hn Hch Hi out. subst out. rewrite call_unfold by assumption.
  rewrite lookup_cons.
  assert ((map encode (take (Z.to_nat (n - 2)) (lower unicode_lower text))
             ++ 3 :: replicate
                  (Z.to_nat (n - 2)
                   - length (take (Z.to_nat (n - 2)) (lower unicode_lower text))) 0)
            !! i = Some (encode ch)) as Hout.
  { rewrite lookup_app_l.
    - rewrite list_lookup_fmap, lookup_take_lt by lia.
      unfold str in Hch. rewrite Hch. reflexivity.
    - rewrite length_map, length_take. apply lookup_lt_Some in Hch. lia. }
  rewrite Hout. split.
  - intros Hin. destruct (encode_known ch Hin) as (j & Hj & ->). eauto.
  - intros Hnotin. rewrite (encode_unknown ch Hnotin). reflexivity.
Qed.

Lemma call_small_len (n : Z) (text : str) :
  n < 2 →
  len (call unicode_lower (init n) text)
    = Z.max (len (lower unicode_lower text) + n - 2) 0 + 2.
Proof.
  intros Hn. unfold call, init. cbn [max_len char_to_idx].
  set (t := lower unicode_lower text) in *.
  unfold slice_to. destruct (Z.leb_spec 0 (n - 2)) as [? | _]; [lia |].
  assert (len (lit "<" ++ take (Z.to_nat (len t + (n - 2))) t ++ lit ">")
          = Z.max (len t + n - 2) 0 + 2) as Hwrapped.
  { rewrite !len_app. unfold len. rewrite length_take.
    change (length (lit "<")) with 1%nat. change (length (lit ">")) with 1%nat.
    lia. }
  rewrite len_app, Hwrapped. unfold len at 1. rewrite length_map.
  fold (len (lit "<" ++ take (Z.to_nat (len t + (n - 2))) t ++ lit ">")).
  rewrite Hwrapped. unfold repeat_list, len.
  rewrite length_replicate. lia.
Qed.

Lemma call_len (n : Z) (text : str) :
  2 ≤ n → len (call unicode_lower (init n) text) = n.
Proof.
  intros Hn. rewrite call_unfold by assumption.
  unfold len. cbn [length]. rewrite length_app, length_map. cbn [length].
  rewrite length_replicate, length_take. lia.
Qed.

(** X3.  With [max_len < 2] the slice bound [max_len - 2] is negative and
    counts from the end: the output has [max(L + max_len - 2, 0) + 2]
    elements and no padding, which is more than [max_len]. *)
Theorem vectorize_small_max_len (n : Z) (text : str) :
  n < 2 →
  let out := call unicode_lower (init n) text in
  let L := len (lower unicode_lower text) in
  len out = Z.max (L + n - 2) 0 + 2 ∧ n < len out.
Proof.
  intros Hn out L. pose proof (call_small_len n text Hn) as Hlen.
  fold out in Hlen. fold L in Hlen. split; lia.
Qed.

Lemma ascii_lower_idem (c : N) : ascii_lower (ascii_lower c) = ascii_lower c.
Proof.
  unfold ascii_lower.
  destruct (N.leb_spec 65 c), (N.leb_spec c 90); cbn [andb];
    repeat match goal with
           | |- context [N.leb ?a ?b] => destruct (N.leb_spec a b)
           end;
    cbn [andb]; try reflexivity; lia.
Qed.

Lemma ascii_lower_is_ascii (c : N) :
  is_ascii c = true → is_ascii (ascii_lower c) = true.
Proof.
  unfold is_ascii, ascii_lower. intros Hc. apply N.ltb_lt in Hc.
  destruct (N.leb_spec 65 c), (N.leb_spec c 90); cbn [andb];
    apply N.ltb_lt; lia.
Qed.

Lemma lower_ascii_idem (text : str) :
  forallb is_ascii text = true →
  lower unicode_lower (map ascii_lower text) = lower unicode_lower text.
Proof.
  intros Hascii. unfold lower. rewrite Hascii.
  assert (forallb is_ascii (map ascii_lower text) = true) as ->.
  { rewrite forallb_forall in *. intros c Hc.
    apply in_map_iff in Hc as (c' & <- & Hc').
    apply ascii_lower_is_ascii, Hascii, Hc'. }
  rewrite map_map. apply map_ext. intros c. apply ascii_lower_idem.
Qed.

(** X4.  Case does not matter for an ASCII transcript: it is vectorized
    like its lowercased form, whatever the vectorizer. *)
Theorem vectorize_ignores_case (self : t) (text : str) :
  forallb is_ascii text = true →
  call unicode_lower self (map ascii_lower text) = call unicode_lower self text.
Proof.
  intros Hascii. unfold call. rewrite lower_ascii_idem by assumption.
  reflexivity.
Qed.

End More.

End VectorizeCharMore.

(** ** Splitting *)

Module SplitFacts.
Import Py PyFacts.
Import DatasetFacts (split_go_nonempty).

Lemma split_go_no_sep (sep : N) (a cur : str) :
  sep ∉ a → split_go sep a cur = [reverse cur ++ a].
Proof.
  revert cur. induction a as [| c a IH]; intros cur Hout; cbn [split_go].
  - rewrite app_nil_r. reflexivity.
  - apply not_elem_of_cons in Hout as [Hne Hout].
    destruct (N.eqb_spec c sep) as [-> | _]; [contradiction |].
    rewrite IH by assumption. rewrite reverse_cons, <- app_assoc. reflexivity.
Qed.

Lemma split_go_first (sep : N) (a b cur : str) :
  sep ∉ a →
  split_go sep (a ++ sep :: b) cur = (reverse cur ++ a) :: split_go sep b [].
Proof.
  revert cur. induction a as [| c a IH]; intros cur Hout; cbn [app split_go].
  - rewrite N.eqb_refl, app_nil_r. reflexivity.
  - apply not_elem_of_cons in Hout as [Hne Hout].
    destruct (N.eqb_spec c sep) as [-> | _]; [contradiction |].
    rewrite IH by assumption. rewrite reverse_cons, <- app_assoc. reflexivity.
Qed.

Lemma last_cons_nonempty {A} (x : A) (l : list A) : l ≠ [] → last (x :: l) = last l.
Proof. destruct l; [contradiction | reflexivity]. Qed.

(** The last piece is what follows the last separator. *)
Lemma split_go_last (sep : N) (a b cur : str) :
  last (split_go sep (a ++ sep :: b) cur) = last (split_go sep b []).
Proof.
  revert cur. induction a as [| c a IH]; intros cur; cbn [app split_go].
  - rewrite N.eqb_refl. apply last_cons_nonempty, split_go_nonempty.
  - destruct (N.eqb c sep); [| apply IH].
    rewrite last_cons_nonempty by apply split_go_nonempty. apply IH.
Qed.

Lemma index_last {A} (l : list A) (x : A) : last l = Some x → index l (-1) = ok x.
Proof.
  intros Hlast. apply last_Some in Hlast as [l' ->].
  unfold index. cbn [Z.ltb Z.compare]. rewrite len_app. unfold len. cbn [length].
  destruct (Z.ltb_spec (Z.of_nat (length l') + Z.of_nat 1 + -1) 0) as [? | _]; [lia |].
  replace (Z.to_nat (Z.of_nat (length l') + Z.of_nat 1 + -1)) with (length l') by lia.
  rewrite lookup_app_r, Nat.sub_diag by lia. reflexivity.
Qed.

(** One more piece than separators. *)
Lemma split_go_length (sep : N) (s cur : str) :
  length (split_go sep s cur) = S (length (List.filter (N.eqb sep) s)).
Proof.
  revert cur. induction s as [| c s IH]; intros cur; cbn [split_go List.filter].
  - reflexivity.
  - rewrite (N.eqb_sym sep c). destruct (N.eqb c sep); cbn [length]; rewrite IH; reflexivity.
Qed.

End SplitFacts.

(** ** get_data: ids, the first missing id, the length bound *)

Module DatasetMore.
Import Py PyFacts Dataset SplitFacts.

(** X5.  The id of a path is the name of its last component up to the
    first dot: the directory in front and whatever follows the dot make no
    difference. *)
Theorem wav_id_basename (dir name rest : str) :
  slash ∉ name → dot ∉ name → slash ∉ rest →
  wav_id (dir ++ [slash] ++ name ++ [dot] ++ rest) = ok name ∧
  wav_id (name ++ [dot] ++ rest) = ok name.
Proof.
  intros Hname Hdot Hrest.
  assert (slash ∉ name ++ [dot] ++ rest) as Hbase.
  { rewrite !not_elem_of_app. repeat split; try assumption.
    intros Hin. apply list_elem_of_singleton in Hin. discriminate. }
  assert (index (split (name ++ [dot] ++ rest) dot) 0 = ok name) as Hhead.
  { unfold split. cbn [app]. rewrite split_go_first by assumption. reflexivity. }
  unfold wav_id, split. split.
  - rewrite (index_last _ (name ++ [dot] ++ rest)).
    + exact Hhead.
    + cbn [app]. rewrite split_go_last.
      rewrite split_go_no_sep by exact Hbase. reflexivity.
  - rewrite split_go_no_sep by exact Hbase. exact Hhead.
Qed.

Section Loop.
Variables (id_to_text : gmap str str) (maxlen : Z).

Lemma get_data_loop_app (pre rest : list str) (data : list sample) :
  Forall (λ w, is_Some (transcript id_to_text w)) pre →
  get_data_loop id_to_text maxlen (pre ++ rest) data =
    get_data_loop id_to_text maxlen rest
      (data ++ omap (kept id_to_text maxlen) pre).
Proof.
  intros Hall. revert data.
  induction Hall as [| w pre [t Ht] _ IH]; intros data.
  - cbn. rewrite app_nil_r. reflexivity.
  - cbn [app get_data_loop omap list_omap]. unfold kept at 1. rewrite Ht.
    unfold transcript in Ht.
    destruct (wav_id w) as [e | id]; [discriminate |].
    cbn [bind]. unfold getitem. rewrite Ht. cbn [bind ok].
    destruct (len t <? maxlen).
    + rewrite IH, <- app_assoc. reflexivity.
    + apply IH.
Qed.

(** X6.  The [KeyError] names the id of the first path, in list order,
    that the mapping lacks; paths after it are not looked at. *)
Theorem get_data_first_missing (pre : list str) (w : str) (post : list str)
    (id : str) :
  Forall (λ w', is_Some (transcript id_to_text w')) pre →
  wav_id w = ok id →
  id_to_text !! id = None →
  get_data (pre ++ w :: post) id_to_text maxlen = raise (KeyError id).
Proof.
  intros Hpre Hid Hnone. unfold get_data.
  rewrite get_data_loop_app by assumption.
  cbn [get_data_loop]. rewrite Hid. cbn [bind ok].
  unfold getitem. rewrite Hnone. reflexivity.
Qed.
End Loop.

Lemma kept_unfold (id_to_text : gmap str str) (maxlen : Z) (w : str) :
  kept id_to_text maxlen w =
    match transcript id_to_text w with
    | Some t => if len t <? maxlen then Some (mk_sample w t) else None
    | None => None
    end.
Proof. reflexivity. Qed.

Lemma omap_kept_filter (id_to_text : gmap str str) (m1 m2 : Z) (wavs : list str) :
  m1 ≤ m2 →
  omap (kept id_to_text m1) wavs =
    List.filter (λ s, len (text s) <? m1) (omap (kept id_to_text m2) wavs).
Proof.
  intros Hle. induction wavs as [| w wavs IH]; [reflexivity |].
  cbn [omap list_omap].
  rewrite (kept_unfold id_to_text m1 w), (kept_unfold id_to_text m2 w).
  destruct (transcript id_to_text w) as [t |]; [| exact IH].
  destruct (Z.ltb_spec (len t) m1) as [H1 | H1];
    destruct (Z.ltb_spec (len t) m2) as [H2 | H2]; try lia.
  - cbn [List.filter text].
    destruct (Z.ltb_spec (len t) m1); [| lia]. rewrite IH. reflexivity.
  - cbn [List.filter text].
    destruct (Z.ltb_spec (len t) m1); [lia |]. exact IH.
  - exact IH.
Qed.

(** X7.  Lowering [maxlen] only removes records: the result for the
    smaller bound is the result for the larger one, filtered by the smaller
    bound. *)
Theorem get_data_smaller_maxlen (id_to_text : gmap str str) (m1 m2 : Z)
    (wavs : list str) :
  m1 ≤ m2 →
  Forall (λ w, is_Some (transcript id_to_text w)) wavs →
  ∃ data1 data2,
    get_data wavs id_to_text m1 = ok data1 ∧
    get_data wavs id_to_text m2 = ok data2 ∧
    data1 = List.filter (λ s, len (text s) <? m1) data2.
Proof.
  intros Hle Hall. unfold get_data.
  rewrite <- (app_nil_r wavs), !get_data_loop_app by assumption.
  cbn [get_data_loop app]. eexists _, _.
  split; [reflexivity |]. split; [reflexivity |].
  apply omap_kept_filter. assumption.
Qed.

End DatasetMore.

(** ** Reading the metadata file *)

Module MetadataFacts.
Import Py PyFacts PySeq Metadata SplitFacts.

Section Parse.
Variable isspace : N → bool.

Lemma fields_pipe_count (line : str) :
  is_Some (fields isspace line) ↔ (2 ≤ pipe_count isspace line)%nat.
Proof.
  unfold fields, pipe_count, split.
  pose proof (split_go_length pipe (strip isspace line) []) as Hlen.
  destruct (split_go pipe (strip isspace line) []) as [| f0 [| f1 [| f2 fs]]];
    cbn [length] in Hlen; split; intros Hyp;
    try (destruct Hyp as [? [=]]); try lia; eauto.
Qed.

Lemma parse_line_fields (line : str) (id text : str) :
  fields isspace line = Some (id, text) →
  index (split (strip isspace line) pipe) 0 = ok id ∧
  index (split (strip isspace line) pipe) 2 = ok text.
Proof.
  unfold fields.
  destruct (split (strip isspace line) pipe) as [| f0 [| f1 [| f2 fs]]];
    intros [= <- <-]. split; reflexivity.
Qed.

Lemma parse_line_short (line : str) :
  fields isspace line = None →
  ∃ id, index (split (strip isspace line) pipe) 0 = ok id ∧
        index (split (strip isspace line) pipe) 2 = raise IndexError.
Proof.
  unfold fields, split.
  pose proof (DatasetFacts.split_go_nonempty pipe (strip isspace line) []) as Hne.
  destruct (split_go pipe (strip isspace line) []) as [| f0 [| f1 [| f2 fs]]];
    [contradiction | | | discriminate]; intros _; eexists; split; reflexivity.
Qed.

Lemma last_transcript_cons (id : str) (line : str) (lines : list str) :
  last_transcript isspace id (line :: lines) =
    match last_transcript isspace id lines with
    | Some t => Some t
    | None =>
        match fields isspace line with
        | Some (id', text) => if decide (id' = id) then Some text else None
        | None => None
        end
    end.
Proof.
  unfold last_transcript. cbn [omap list_omap].
  set (rest := omap _ lines).
  destruct (fields isspace line) as [[id' text] |]; [| destruct (last rest); reflexivity].
  destruct (decide (id' = id)); [| destruct (last rest); reflexivity].
  rewrite last_cons. destruct (last rest); reflexivity.
Qed.

Lemma parse_loop_fields (lines : list str) (table : gmap str str) :
  Forall (λ line, is_Some (fields isspace line)) lines →
  ∃ m, parse_loop isspace lines table = ok m ∧
       ∀ id, m !! id = match last_transcript isspace id lines with
                      | Some t => Some t
                      | None => table !! id
                      end.
Proof.
  intros Hall. revert table.
  induction Hall as [| line lines [[id0 text0] Hf] _ IH]; intros table.
  - exists table. split; reflexivity.
  - cbn [parse_loop].
    destruct (parse_line_fields _ _ _ Hf) as [-> ->]. cbn [bind ok].
    destruct (IH (<[id0 := text0]> table)) as (m & -> & Hm).
    exists m. split; [reflexivity |]. intros id.
    rewrite Hm, last_transcript_cons, Hf.
    destruct (last_transcript isspace id lines); [reflexivity |].
    destruct (decide (id0 = id)) as [-> | Hne].
    + apply lookup_insert_eq.
    + apply lookup_insert_ne. assumption.
Qed.

(** X8.  When every stripped line has at least two ['|'], the file is read
    into a table that binds each id (first field) to the transcript (third
    field) of the LAST line that starts with it, and binds nothing else. *)
Theorem parse_metadata_last_wins (lines : list str) :
  Forall (λ line, 2 ≤ pipe_count isspace line)%nat lines →
  ∃ m, parse_metadata isspace lines = ok m ∧
       ∀ id, m !! id = last_transcript isspace id lines.
Proof.
  intros Hall.
  destruct (parse_loop_fields lines ∅) as (m & Hm & Hlookup).
  { eapply Forall_impl; [exact Hall |]. intros line. apply fields_pipe_count. }
  exists m. split; [exact Hm |]. intros id. rewrite Hlookup.
  destruct (last_transcript isspace id lines); [reflexivity | apply lookup_empty].
Qed.

Lemma parse_loop_app (pre rest : list str) (table : gmap str str) :
  Forall (λ line, is_Some (fields isspace line)) pre →
  ∃ table', parse_loop isspace (pre ++ rest) table
            = parse_loop isspace rest table'.
Proof.
  intros Hall. revert table.
  induction Hall as [| line pre [[id0 text0] Hf] _ IH]; intros table.
  - exists table. reflexivity.
  - cbn [app parse_loop].
    destruct (parse_line_fields _ _ _ Hf) as [-> ->]. cbn [bind ok]. apply IH.
Qed.

(** X9.  A line with fewer than two ['|'] stops the reading with
    [IndexError]: no table is produced, however many good lines came
    before or come after. *)
Theorem parse_metadata_short_line (pre : list str) (line : str) (post : list str) :
  Forall (λ l, 2 ≤ pipe_count isspace l)%nat pre →
  (pipe_count isspace line < 2)%nat →
  parse_metadata isspace (pre ++ line :: post) = raise IndexError.
Proof.
  intros Hpre Hshort. unfold parse_metadata.
  destruct (parse_loop_app pre (line :: post) ∅) as [table ->].
  { eapply Forall_impl; [exact Hpre |]. intros l. apply fields_pipe_count. }
  cbn [parse_loop].
  assert (fields isspace line = None) as Hnone.
  { destruct (fields isspace line) eqn:Hf; [| reflexivity].
    assert (is_Some (fields isspace line)) as Hs by (rewrite Hf; eauto).
    apply fields_pipe_count in Hs. lia. }
  destruct (parse_line_short line Hnone) as (id & -> & ->). reflexivity.
Qed.

End Parse.

End MetadataFacts.

(** ** The display callback: what is read, where it stops, what is shown *)

Module DisplayOutputsMore.
Import Py PyFacts DisplayOutputs DisplayOutputsFacts.

Lemma through_end_first (end_idx : Z) (pre rest : list Z) :
  end_idx ∉ pre →
  through_end end_idx (pre ++ end_idx :: rest) = pre ++ [end_idx].
Proof.
  induction pre as [| idx pre IH]; intros Hout; cbn [app through_end].
  - rewrite Z.eqb_refl. reflexivity.
  - apply not_elem_of_cons in Hout as [Hne Hout].
    destruct (Z.eqb_spec idx end_idx) as [-> | _]; [contradiction |].
    rewrite IH by assumption. reflexivity.
Qed.

(** X10.  The indices that follow the first end token of a predicted row
    are never read: when the row up to that token holds valid indices, the
    prediction is its decoding, whatever comes after, an index outside the
    table included. *)
Theorem prediction_ignores_suffix
    (table : list str) (end_idx : Z) (pre rest : list Z) (acc : str) :
  end_idx ∉ pre →
  Forall (valid_index table) (pre ++ [end_idx]) →
  prediction_loop table end_idx (pre ++ end_idx :: rest) acc
    = ok (acc ++ decode table (pre ++ [end_idx])).
Proof.
  intros Hout Hvalid.
  rewrite prediction_loop_through_end, through_end_first by assumption.
  rewrite (join_tokens_decode _ _ Hvalid). reflexivity.
Qed.

Lemma index_nat_cases {A} (l : list A) (i : nat) (d : A) :
  ((i < length l)%nat ∧ index l (Z.of_nat i) = ok (nth i l d)) ∨
  ((length l ≤ i)%nat ∧ index l (Z.of_nat i) = raise IndexError).
Proof.
  unfold index.
  destruct (Z.ltb_spec (Z.of_nat i) 0) as [? | _]; [lia |].
  destruct (Z.ltb_spec (Z.of_nat i) 0) as [? | _]; [lia |].
  rewrite Nat2Z.id. destruct (l !! i) as [y |] eqn:Hy.
  - left. split; [apply lookup_lt_Some in Hy; exact Hy |].
    f_equal. symmetry. apply nth_lookup_Some. exact Hy.
  - right. split; [apply lookup_ge_None in Hy; exact Hy | reflexivity].
Qed.

(** An index outside [-len, len) is refused. *)
Lemma index_invalid {A} (l : list A) (i : Z) :
  ¬ (- len l ≤ i < len l) → index l i = raise IndexError.
Proof.
  intros Hout. unfold index.
  set (j := if i <? 0 then len l + i else i).
  destruct (Z.ltb_spec j 0) as [_ | Hj]; [reflexivity |].
  destruct (l !! Z.to_nat j) as [x |] eqn:Hx; [| reflexivity].
  apply lookup_lt_Some in Hx. exfalso. apply Hout.
  subst j. unfold len in *. destruct (Z.ltb_spec i 0); lia.
Qed.

Lemma index_cases (table : list str) (i : Z) :
  (valid_index table i ∧ index table i = ok (token table i)) ∨
  (¬ valid_index table i ∧ index table i = raise IndexError).
Proof.
  unfold valid_index.
  destruct (decide (- len table ≤ i < len table)) as [Hin | Hout].
  - left. split; [exact Hin | apply index_token; exact Hin].
  - right. split; [exact Hout | apply index_invalid; exact Hout].
Qed.

(** A row is joined exactly when all its indices are valid. *)
Lemma join_tokens_cases (table : list str) (row : list Z) :
  (Forall (valid_index table) row ∧
   join_tokens table row = ok (decode table row)) ∨
  (¬ Forall (valid_index table) row ∧
   join_tokens table row = raise IndexError).
Proof.
  induction row as [| i row IH]; [left; split; [constructor | reflexivity] |].
  cbn [join_tokens]. unfold decode. cbn [map concat].
  destruct (index_cases table i) as [[Hi ->] | [Hi ->]].
  - cbn [bind ok]. destruct IH as [[Hrow ->] | [Hrow ->]].
    + left. split; [constructor; assumption | reflexivity].
    + right. split; [| reflexivity].
      intros Hall. apply Forall_cons in Hall as [_ Hall]. contradiction.
  - right. split; [| reflexivity].
    intros Hall. apply Forall_cons in Hall as [Hall _]. contradiction.
Qed.

Section Callback.
Context {Spectrogram : Type}.
Implicit Types (self : t Spectrogram) (log : list (event Spectrogram)).

(** A row that can be decoded prints both of its lines; any other row
    raises [IndexError] and prints nothing. *)
Lemma show_row_cases self (preds : list (list Z)) (i : nat) log :
  (decodable self preds i ∧
   show_row self (batch_target self) preds (Z.of_nat i) log
     = (log ++ row_lines self preds i, ok tt)) ∨
  (¬ decodable self preds i ∧
   show_row self (batch_target self) preds (Z.of_nat i) log
     = (log, raise IndexError)).
Proof.
  unfold show_row, seq_io, lift, emit, decodable.
  destruct (index_nat_cases (batch_target self) i []) as [[Ht ->] | [Ht ->]];
    [| right; split; [intros (? & _); lia | reflexivity]].
  cbn [ok].
  destruct (join_tokens_cases (idx_to_char self) (nth i (batch_target self) []))
    as [[Htrow ->] | [Htrow ->]];
    [| right; split; [intros (_ & _ & ? & _); contradiction | reflexivity]].
  cbn [ok].
  destruct (index_nat_cases preds i []) as [[Hp ->] | [Hp ->]];
    [| right; split; [intros (_ & ? & _); lia | reflexivity]].
  cbn [ok]. rewrite prediction_loop_through_end.
  destruct (join_tokens_cases (idx_to_char self)
              (through_end (target_end_token_idx self) (nth i preds [])))
    as [[Hprow ->] | [Hprow ->]];
    [| right; split; [intros (_ & _ & _ & ?); contradiction | reflexivity]].
  left. split; [auto |].
  cbn [ok bind app]. rewrite <- app_assoc. reflexivity.
Qed.

(** A loop whose body either shows row [i], when [P i], or raises and
    shows nothing, otherwise: it stops at the first row without [P]. *)
Lemma for_each_stops (body : Z → io Spectrogram unit)
    (lines : nat → list (event Spectrogram)) (P : nat → Prop)
    (a n : nat) log :
  (∀ i log', (P i ∧ body (Z.of_nat i) log' = (log' ++ lines i, ok tt)) ∨
             (¬ P i ∧ body (Z.of_nat i) log' = (log', raise IndexError))) →
  ∃ k, (k ≤ n)%nat ∧
       (∀ i, (a ≤ i < a + k)%nat → P i) ∧
       ((k < n)%nat → ¬ P (a + k)%nat) ∧
       for_each body (map Z.of_nat (seq a n)) log =
         (log ++ flat_map lines (seq a k),
          if (k =? n)%nat then ok tt else raise IndexError).
Proof.
  intros Hbody. revert a log. induction n as [| n IH]; intros a log.
  - exists 0%nat. split; [lia |]. split; [intros i Hi; lia |].
    split; [lia |]. cbn. rewrite app_nil_r. reflexivity.
  - cbn [seq map for_each]. unfold seq_io.
    destruct (Hbody a log) as [[Ha ->] | [Ha ->]].
    + destruct (IH (S a) (log ++ lines a)) as (k & Hk & Hshown & Hbad & ->).
      exists (S k). split; [lia |]. split.
      { intros i Hi. destruct (decide (i = a)) as [-> | Hne]; [exact Ha |].
        apply Hshown. lia. }
      split.
      { intros Hlt. replace (a + S k)%nat with (S a + k)%nat by lia.
        apply Hbad. lia. }
      cbn [seq flat_map Nat.eqb]. rewrite <- app_assoc. reflexivity.
    + exists 0%nat. split; [lia |]. split; [intros i Hi; lia |].
      split; [intros _; rewrite Nat.add_0_r; exact Ha |].
      cbn. rewrite app_nil_r. reflexivity.
Qed.

(** X11.  At an epoch that is a multiple of 5 the rows are shown in order
    and the callback stops at the first row it cannot decode: with [k] the
    number of rows shown, every row before [k] can be decoded and has both
    of its lines printed; when [k] is less than the batch size, row [k]
    cannot be decoded, nothing of it or of a later row is printed, and the
    callback raises [IndexError]; when [k] is the batch size the callback
    returns normally. *)
Theorem on_epoch_end_stops_at_first_bad_row self (epoch : Z) log :
  epoch mod 5 = 0 →
  let source := batch_source self in
  let start := target_start_token_idx self in
  let preds := model_generate self source start in
  ∃ k,
    (k ≤ length source)%nat ∧
    (∀ i, (i < k)%nat → decodable self preds i) ∧
    ((k < length source)%nat → ¬ decodable self preds k) ∧
    on_epoch_end self epoch log =
      (log ++ EvGenerate source start
           :: flat_map (row_lines self preds) (seq 0 k),
       if (k =? length source)%nat then ok tt else raise IndexError).
Proof.
  intros Hz source start preds. unfold on_epoch_end.
  fold source. fold start. fold preds.
  rewrite Hz. cbn [Z.eqb negb]. unfold seq_io, emit, range, len.
  rewrite Nat2Z.id.
  destruct (for_each_stops (show_row self (batch_target self) preds)
              (row_lines self preds) (decodable self preds) 0 (length source)
              (log ++ [EvGenerate source start]))
    as (k & Hk & Hshown & Hbad & ->); [intros; apply show_row_cases |].
  exists k. split; [exact Hk |].
  split; [intros i Hi; apply Hshown; lia |].
  split; [exact Hbad |].
  rewrite <- app_assoc. reflexivity.
Qed.
End Callback.

End DisplayOutputsMore.

(** ** A vectorized transcript on the target line *)

Module ShownFacts.
Import Py PyFacts VectorizeChar VectorizeCharFacts VectorizeCharMore.
Import DisplayOutputs DisplayOutputsFacts Shown.

Lemma the_vocab_len : len the_vocab = 34.
Proof. reflexivity. Qed.

Lemma encode_valid (ch : N) : valid_index the_vocab (encode ch).
Proof.
  unfold valid_index. rewrite the_vocab_len.
  pose proof (encode_range ch). lia.
Qed.

Lemma token_encode (ch : N) : token the_vocab (encode ch) = [shown ch].
Proof.
  unfold shown. destruct (decide ([ch] ∈ the_vocab)) as [Hin | Hout].
  - unfold token. rewrite (encode_decode ch Hin). reflexivity.
  - rewrite (encode_unknown ch Hout). reflexivity.
Qed.

Lemma decode_encode (t : str) : decode the_vocab (map encode t) = map shown t.
Proof.
  unfold decode. induction t as [| ch t IH]; [reflexivity |].
  cbn [map concat]. rewrite token_encode, IH. reflexivity.
Qed.

Lemma decode_app (table : list str) (r1 r2 : list Z) :
  decode table (r1 ++ r2) = decode table r1 ++ decode table r2.
Proof. unfold decode. rewrite map_app, concat_app. reflexivity. Qed.

Lemma decode_pad (p : nat) : decode the_vocab (replicate p 0) = replicate p hyphen.
Proof.
  unfold decode. induction p as [| p IH]; [reflexivity |].
  cbn [replicate map concat]. rewrite IH. reflexivity.
Qed.

Lemma remove_char_app (c : N) (s1 s2 : str) :
  remove_char c (s1 ++ s2) = remove_char c s1 ++ remove_char c s2.
Proof. unfold remove_char. apply List.filter_app. Qed.

Lemma remove_char_replicate (c : N) (p : nat) : remove_char c (replicate p c) = [].
Proof.
  unfold remove_char. induction p as [| p IH]; [reflexivity |].
  cbn [replicate List.filter]. rewrite N.eqb_refl. exact IH.
Qed.

Section Target.
Variable unicode_lower : str → str.

(** X12.  On the target line a vectorized transcript reads as ['<'], its
    kept lowercased characters, and ['>']: the padding has gone, each
    character the vocabulary lacks shows as ['#'], and the hyphens of the
    transcript have gone with the padding. *)
Theorem target_line_of_transcript (n : Z) (text : str) :
  2 ≤ n →
  let kept := take (Z.to_nat (n - 2)) (lower unicode_lower text) in
  ∃ target_text,
    join_tokens (get_vocabulary (init n)) (call unicode_lower (init n) text)
      = ok target_text ∧
    remove_char hyphen target_text
      = lit "<" ++ remove_char hyphen (map shown kept) ++ lit ">".
Proof.
  intros Hn kept. rewrite call_unfold by assumption. fold kept.
  set (p := (Z.to_nat (n - 2) - length kept)%nat).
  change (get_vocabulary (init n)) with the_vocab.
  assert (Forall (valid_index the_vocab)
            (2 :: map encode kept ++ 3 :: replicate p 0)) as Hvalid.
  { constructor; [unfold valid_index; rewrite the_vocab_len; lia |].
    apply Forall_app. split.
    - apply Forall_forall. intros i Hi.
      apply list_elem_of_fmap in Hi as (ch & -> & _). apply encode_valid.
    - constructor; [unfold valid_index; rewrite the_vocab_len; lia |].
      apply Forall_replicate. unfold valid_index. rewrite the_vocab_len. lia. }
  eexists. split; [apply join_tokens_decode; exact Hvalid |].
  change (2 :: map encode kept ++ 3 :: replicate p 0)
    with ([2] ++ map encode kept ++ [3] ++ replicate p 0).
  rewrite !decode_app, decode_encode, decode_pad.
  change (decode the_vocab [2]) with (lit "<").
  change (decode the_vocab [3]) with (lit ">").
  rewrite !remove_char_app, remove_char_replicate, app_nil_r. reflexivity.
Qed.
End Target.

End ShownFacts.

(** ** The schedule: epochs, errors and values *)

Module CurvesFacts.
Import Py PyFloat CustomSchedule.

(** X15.  The rate is constant over an epoch: with a positive
    [steps_per_epoch], step [e * steps_per_epoch + r] with
    [0 <= r < steps_per_epoch] gets what epoch [e] gets, the rate or the
    exception, for a Python [int] step and for an int64 step tensor. *)
Theorem call_within_epoch (self : t) (e r : Z) :
  0 ≤ r < steps_per_epoch self →
  call self (PyInt (e * steps_per_epoch self + r))
    = calculate_lr self (PyInt e) ∧
  call self (Int64Tensor (e * steps_per_epoch self + r))
    = calculate_lr self (Int64Tensor e).
Proof.
  intros Hr. unfold call, floordiv.
  destruct (Z.eqb_spec (steps_per_epoch self) 0) as [? | _]; [lia |].
  cbn [bind ok].
  replace ((e * steps_per_epoch self + r) / steps_per_epoch self) with e;
    [split; reflexivity |].
  rewrite Z.add_comm, Z.div_add by lia. rewrite Z.div_small by lia. lia.
Qed.

(** X23.  A zero divisor stops the schedule before any rate is computed:
    with [steps_per_epoch = 0] the floor division of a Python [int] step
    raises [ZeroDivisionError]; with [warmup_epochs = 1] the slope of the
    warmup curve does, whatever the step is. *)
Theorem call_zero_divisor (self : t) (s : Z) :
  (steps_per_epoch self = 0 →
   call self (PyInt s) = raise ZeroDivisionError) ∧
  (steps_per_epoch self ≠ 0 → warmup_epochs self = 1 →
   call self (PyInt s) = raise ZeroDivisionError ∧
   call self (Int64Tensor s) = raise ZeroDivisionError).
Proof.
  unfold call, floordiv. split.
  - intros ->. reflexivity.
  - intros Hs Hw.
    destruct (Z.eqb_spec (steps_per_epoch self) 0) as [? | _]; [contradiction |].
    cbn [bind ok]. unfold calculate_lr. rewrite Hw. split; reflexivity.
Qed.

(** X24.  The rates of the script's schedule at the ends of its windows
    and next to them, as the float32 numbers they are: [2748779 / 2^38] at
    epochs 0 and 100, [11093287 / 2^37] at epoch 1 and [8589935 / 2^33] at
    epochs 14 and 15; an epoch of [2^1024], too large for a float, raises
    [OverflowError]. *)
Theorem script_rates (steps : Z) :
  let self := script_schedule steps in
  let returns e q :=
    ∃ v, calculate_lr self (PyInt e) = ok v ∧ value v = Some q in
  returns 0 (2748779 # 2 ^ 38)%Q ∧
  returns 1 (11093287 # 2 ^ 37)%Q ∧
  returns 14 (8589935 # 2 ^ 33)%Q ∧
  returns 15 (8589935 # 2 ^ 33)%Q ∧
  returns 100 (2748779 # 2 ^ 38)%Q ∧
  calculate_lr self (PyInt (2 ^ 1024)) = raise OverflowError.
Proof.
  intros self returns. unfold returns, self.
  repeat split;
    try (eexists; split; [reflexivity | vm_compute; reflexivity]).
Qed.

End CurvesFacts.

(** ** From records to batches *)

Module PipelineFacts.
Import Py PyFacts PySeq Dataset Audio Pipeline.
Import VectorizeChar VectorizeCharFacts VectorizeCharMore.

Lemma from_tensor_slices_rectangular {A} (rows : list (list A)) (k : nat) :
  Forall (λ r, length r = k) rows → from_tensor_slices rows = Some rows.
Proof.
  intros Hall. destruct rows as [| row rows]; [reflexivity |].
  unfold from_tensor_slices.
  assert (forallb (λ r, Nat.eqb (length r) (length row)) (row :: rows) = true) as ->;
    [| reflexivity].
  apply forallb_forall. intros r Hr. apply Nat.eqb_eq.
  rewrite Forall_forall in Hall.
  rewrite (Hall r) by (apply list_elem_of_In; exact Hr).
  rewrite (Hall row) by (apply list_elem_of_here). reflexivity.
Qed.

Lemma batch_go_concat {A} (fuel bs : nat) (l : list A) :
  (0 < bs)%nat → (length l ≤ fuel)%nat → concat (batch_go fuel bs l) = l.
Proof.
  intros Hbs. revert l. induction fuel as [| fuel IH]; intros l Hlen.
  - destruct l; [reflexivity | cbn in Hlen; lia].
  - destruct l as [| x l]; [reflexivity |].
    cbn [batch_go concat]. rewrite IH.
    + apply take_drop.
    + rewrite length_drop. cbn [length] in *. lia.
Qed.

Lemma batch_go_sizes {A} (fuel bs : nat) (l : list A) :
  (0 < bs)%nat →
  Forall (λ b, 0 < length b ≤ bs)%nat (batch_go fuel bs l).
Proof.
  intros Hbs. revert l. induction fuel as [| fuel IH]; intros l; [constructor |].
  destruct l as [| x l]; [constructor |].
  cbn [batch_go]. constructor; [| apply IH].
  rewrite length_take. cbn [length]. lia.
Qed.

Lemma ceil_div_step (m bs : nat) :
  (0 < bs)%nat → (0 < m)%nat →
  ((m + bs - 1) / bs = S ((m - bs + bs - 1) / bs))%nat.
Proof.
  intros Hbs Hm. destruct (Nat.le_gt_cases bs m) as [Hge | Hlt].
  - replace (m + bs - 1)%nat with ((m - bs + bs - 1) + 1 * bs)%nat by lia.
    rewrite Nat.div_add by lia. lia.
  - replace (m - bs + bs - 1)%nat with (bs - 1)%nat by lia.
    rewrite (Nat.div_small (bs - 1)) by lia.
    symmetry. apply (Nat.div_unique _ _ 1%nat (m - 1)); lia.
Qed.

Lemma batch_go_count {A} (fuel bs : nat) (l : list A) :
  (0 < bs)%nat → (length l ≤ fuel)%nat →
  length (batch_go fuel bs l) = ((length l + bs - 1) / bs)%nat.
Proof.
  intros Hbs. revert l. induction fuel as [| fuel IH]; intros l Hlen.
  - destruct l; [| cbn in Hlen; lia]. cbn. symmetry. apply Nat.div_small. lia.
  - destruct l as [| x l].
    + cbn. symmetry. apply Nat.div_small. lia.
    + cbn [batch_go length]. rewrite IH.
      * rewrite length_drop. cbn [length].
        rewrite (ceil_div_step (S (length l)) bs) by lia. reflexivity.
      * rewrite length_drop. cbn [length] in *. lia.
Qed.

Section Script.
Variable unicode_lower : str → str.
Context {F : Type} `{TensorNum F}.
Variable compressed_magnitude : str → list (list F).

Local Abbreviation vectorized n data :=
  (map (λ s, call unicode_lower (init n) (text s)) data).
Local Abbreviation featurized data :=
  (map (λ s, path_to_audio compressed_magnitude (audio s)) data).

Lemma vectorized_len (n : Z) (data : list sample) :
  2 ≤ n → Forall (λ r, len r = n) (vectorized n data).
Proof.
  intros Hn. apply Forall_forall. intros r Hr.
  apply list_elem_of_fmap in Hr as (s & -> & _). apply call_len. assumption.
Qed.

Lemma create_text_ds_vectorized (n : Z) (data : list sample) :
  2 ≤ n →
  create_text_ds unicode_lower (init n) data = Some (vectorized n data).
Proof.
  intros Hn. unfold create_text_ds. rewrite map_map.
  apply (from_tensor_slices_rectangular _ (Z.to_nat n)).
  eapply Forall_impl; [apply vectorized_len; exact Hn |].
  intros r Hr. cbn beta in Hr. unfold len in Hr. lia.
Qed.

(** X16.  With [max_len >= 2] the text dataset is built: one row per
    record, in order, each the vectorized transcript of its record, and
    all of length [max_len], so that the rows form a tensor. *)
Theorem create_text_ds_rows (n : Z) (data : list sample) :
  2 ≤ n →
  ∃ rows,
    create_text_ds unicode_lower (init n) data = Some rows ∧
    rows = map (λ s, call unicode_lower (init n) (text s)) data ∧
    Forall (λ r, len r = n) rows.
Proof.
  intros Hn. exists (vectorized n data).
  split; [apply create_text_ds_vectorized; exact Hn |].
  split; [reflexivity | apply vectorized_len; exact Hn].
Qed.

(** X17.  With [max_len < 2] the rows are as long as their transcripts:
    when the first two records give rows of different lengths the rows
    form no tensor and the text dataset is not built. *)
Theorem create_text_ds_ragged (n : Z) (s1 s2 : sample) (rest : list sample) :
  n < 2 →
  Z.max (len (lower unicode_lower (text s1)) + n - 2) 0
    ≠ Z.max (len (lower unicode_lower (text s2)) + n - 2) 0 →
  create_text_ds unicode_lower (init n) (s1 :: s2 :: rest) = None.
Proof.
  intros Hn Hdiff. unfold create_text_ds, from_tensor_slices.
  cbn [map forallb]. rewrite Nat.eqb_refl. cbn [andb].
  pose proof (call_small_len unicode_lower n (text s1) Hn) as H1.
  pose proof (call_small_len unicode_lower n (text s2) Hn) as H2.
  destruct (Nat.eqb_spec
              (length (call unicode_lower (init n) (text s2)))
              (length (call unicode_lower (init n) (text s1)))) as [Heq | _];
    [| reflexivity].
  exfalso. apply Hdiff. unfold len in H1, H2 |- *. lia.
Qed.

Lemma stack_all_inv (groups : list (list (list (list F) * list Z)))
    (batches : list batch_t) :
  stack_all groups = Some batches → batches = map stacked groups.
Proof.
  revert batches. induction groups as [| g groups IH]; intros batches.
  - intros [= <-]. reflexivity.
  - cbn [stack_all]. destruct (stack g) as [b |] eqn:Hb; [| discriminate].
    destruct (stack_all groups) as [bs' |]; [| discriminate].
    intros [= <-]. cbn [map]. rewrite <- (IH bs' eq_refl). f_equal.
    unfold stack in Hb. destruct g as [| first g]; [congruence |].
    destruct (forallb _ _); congruence.
Qed.

Lemma stack_same_shape (g : list (list (list F) * list Z)) (shp : list nat) :
  Forall (λ m, shape (fst m) = shp) g → stack g = Some (stacked g).
Proof.
  intros Hall. unfold stack. destruct g as [| first g]; [reflexivity |].
  assert (forallb (λ m, bool_decide (shape (fst m) = shape (fst first)))
            (first :: g) = true) as ->; [| reflexivity].
  apply forallb_forall. intros m Hm. apply bool_decide_eq_true.
  rewrite Forall_forall in Hall.
  rewrite (Hall m) by (apply list_elem_of_In; exact Hm).
  rewrite (Hall first) by (apply list_elem_of_here). reflexivity.
Qed.

Lemma stack_all_same_shape (groups : list (list (list (list F) * list Z)))
    (shp : list nat) :
  Forall (Forall (λ m, shape (fst m) = shp)) groups →
  stack_all groups = Some (map stacked groups).
Proof.
  induction 1 as [| g groups Hg _ IH]; [reflexivity |].
  cbn [stack_all map]. rewrite (stack_same_shape g shp Hg), IH. reflexivity.
Qed.

Lemma create_audio_ds_nonempty (data : list sample) :
  data ≠ [] →
  create_audio_ds compressed_magnitude data = Some (featurized data).
Proof.
  intros Hne. unfold create_audio_ds. rewrite map_map.
  destruct data as [| s data]; [contradiction | reflexivity].
Qed.

(** No records, no dataset. *)
Lemma create_tf_dataset_empty (vectorizer : VectorizeChar.t) (bs : Z) :
  create_tf_dataset unicode_lower compressed_magnitude vectorizer [] bs = None.
Proof. reflexivity. Qed.

(** What the batching makes of the zipped datasets. *)
Lemma batch_groups (n : Z) (data : list sample) (bs : Z) :
  2 ≤ n → 0 < bs → data ≠ [] →
  ∃ groups : list (list (list (list F) * list Z)),
    create_tf_dataset unicode_lower compressed_magnitude (init n) data bs
      = stack_all groups ∧
    concat groups = zip (featurized data) (vectorized n data) ∧
    Forall (λ g, 0 < length g ≤ Z.to_nat bs)%nat groups ∧
    length groups = ((length data + Z.to_nat bs - 1) / Z.to_nat bs)%nat.
Proof.
  intros Hn Hbs Hne. unfold create_tf_dataset.
  rewrite create_audio_ds_nonempty by assumption.
  rewrite create_text_ds_vectorized by assumption.
  unfold batch.
  destruct (Z.leb_spec bs 0) as [? | _]; [lia |].
  eexists. split; [reflexivity |].
  assert (length (zip (featurized data) (vectorized n data)) = length data) as Hlen.
  { rewrite length_zip_with_l_eq; rewrite !length_map; reflexivity. }
  split; [apply batch_go_concat; lia |].
  split; [apply batch_go_sizes; lia |].
  rewrite batch_go_count by lia. rewrite Hlen. reflexivity.
Qed.

Lemma concat_stack_source (groups : list (list (list (list F) * list Z))) :
  concat (map source (map stacked groups)) = map fst (concat groups).
Proof.
  induction groups as [| g groups IH]; [reflexivity |].
  cbn [map concat source stacked]. rewrite IH, map_app. reflexivity.
Qed.

Lemma concat_stack_target (groups : list (list (list (list F) * list Z))) :
  concat (map target (map stacked groups)) = map snd (concat groups).
Proof.
  induction groups as [| g groups IH]; [reflexivity |].
  cbn [map concat target stacked]. rewrite IH, map_app. reflexivity.
Qed.

Lemma path_to_audio_shape (path : str) :
  Forall (λ frame, length frame = bins) (compressed_magnitude path) →
  shape (path_to_audio compressed_magnitude path) = replicate 2754 bins.
Proof.
  intros Hframes. unfold shape, path_to_audio.
  rewrite AudioFacts.pad_then_slice, map_app, fmap_replicate, length_replicate.
  assert (map length (take 2754 (map normalise_row (compressed_magnitude path)))
          = replicate (length (take 2754 (compressed_magnitude path))) bins) as ->.
  { rewrite <- fmap_take.
    assert (Forall (λ frame, length frame = bins)
              (take 2754 (compressed_magnitude path))) as Htake
      by (apply Forall_take; exact Hframes).
    induction Htake as [| frame frames Hframe _ IH]; [reflexivity |].
    rewrite fmap_cons. cbn [map length replicate]. unfold normalise_row at 1.
    rewrite length_map, Hframe. f_equal. exact IH. }
  rewrite <- replicate_add. f_equal. rewrite length_take, length_map. lia.
Qed.

(** With frames of 129 bins all spectrograms have one shape and the
    groups stack. *)
Lemma create_tf_dataset_groups (n : Z) (data : list sample) (bs : Z) :
  2 ≤ n → 0 < bs → data ≠ [] →
  (∀ path, Forall (λ frame, length frame = bins) (compressed_magnitude path)) →
  ∃ groups : list (list (list (list F) * list Z)),
    create_tf_dataset unicode_lower compressed_magnitude (init n) data bs
      = Some (map stacked groups) ∧
    concat groups = zip (featurized data) (vectorized n data) ∧
    Forall (λ g, 0 < length g ≤ Z.to_nat bs)%nat groups ∧
    length groups = ((length data + Z.to_nat bs - 1) / Z.to_nat bs)%nat.
Proof.
  intros Hn Hbs Hne Hstft.
  destruct (batch_groups n data bs Hn Hbs Hne)
    as (groups & -> & Hconcat & Hsizes & Hcount).
  exists groups. split; [| auto].
  apply (stack_all_same_shape groups (replicate 2754 bins)).
  apply Forall_forall. intros g Hg. apply Forall_forall. intros [x y] Hxy.
  assert ((x, y) ∈ concat groups) as Hin
    by (apply list_elem_of_In, in_concat; exists g;
        split; apply list_elem_of_In; assumption).
  rewrite Hconcat in Hin. apply elem_of_zip_l in Hin. cbn [fst] in Hin |- *.
  apply list_elem_of_fmap in Hin as (s & -> & _).
  apply path_to_audio_shape, Hstft.
Qed.

(** X18.  Without records no dataset is built.  With at least one
    record, [max_len >= 2], a positive batch size and STFT frames of 129
    bins the dataset is built; its batches, put end to end, give every
    record's spectrogram and every record's vectorized transcript in the
    order of the records, so each clip stays with its own transcript; every
    batch has as many sources as targets, at least one and at most [bs];
    and there are [ceil(len(data) / bs)] batches, the [len(ds)] that the
    schedule takes as [steps_per_epoch]. *)
Theorem create_tf_dataset_batches (n : Z) (data : list sample) (bs : Z) :
  2 ≤ n → 0 < bs →
  (∀ path, Forall (λ frame, length frame = bins) (compressed_magnitude path)) →
  create_tf_dataset unicode_lower compressed_magnitude (init n) [] bs = None ∧
  (data ≠ [] →
   ∃ batches,
     create_tf_dataset unicode_lower compressed_magnitude (init n) data bs
       = Some batches ∧
     concat (map source batches)
       = map (λ s, path_to_audio compressed_magnitude (audio s)) data ∧
     concat (map target batches)
       = map (λ s, call unicode_lower (init n) (text s)) data ∧
     Forall (λ b, length (source b) = length (target b)
                  ∧ 0 < len (target b) ≤ bs) batches ∧
     len batches = (len data + bs - 1) / bs).
Proof.
  intros Hn Hbs Hstft. split; [apply create_tf_dataset_empty |]. intros Hne.
  destruct (create_tf_dataset_groups n data bs Hn Hbs Hne Hstft)
    as (groups & -> & Hconcat & Hsizes & Hcount).
  exists (map stacked groups). split; [reflexivity |].
  split; [rewrite concat_stack_source, Hconcat; apply fst_zip;
          rewrite !length_map; lia |].
  split; [rewrite concat_stack_target, Hconcat; apply snd_zip;
          rewrite !length_map; lia |].
  split.
  - apply Forall_fmap. eapply Forall_impl; [exact Hsizes |].
    intros g Hg. cbn beta in Hg. cbn [source target stacked compose].
    unfold len. rewrite !length_map. split; [reflexivity | lia].
  - unfold len. rewrite length_map, Hcount.
    rewrite Nat2Z.inj_div. f_equal; lia.
Qed.

Section Split.
Variable int_of_scaled : Z → Z.

(** X19.  Whatever index the product [len(data) * 0.99] gives, negative
    or too large included, the training and the test records together are
    the records, in order, none lost and none in both; an index between
    0 and [len(data)] is the number of training records. *)
Theorem train_test_partition (data : list sample) :
  let (train_data, test_data) := train_test int_of_scaled data in
  train_data ++ test_data = data ∧
  (0 ≤ int_of_scaled (len data) ≤ len data →
   len train_data = int_of_scaled (len data)).
Proof.
  unfold train_test, slice_to, slice_from.
  set (k := int_of_scaled (len data)).
  destruct (Z.leb_spec 0 k) as [Hk | Hk].
  - split; [apply take_drop |]. intros Hin. unfold len in *.
    rewrite length_take. lia.
  - split; [apply take_drop |]. intros Hin. lia.
Qed.
End Split.

End Script.

End PipelineFacts.

(** ** The shape of a spectrogram *)

Module AudioMore.
Import Py PyFacts Audio AudioFacts.

Section Shape.
Context {F : Type} `{TensorNum F}.
Variable compressed_magnitude : str → list (list F).

(** X20.  When every STFT frame has its 129 bins, the spectrogram is a
    2754 by 129 table: normalising keeps the width of a frame and the
    padding frames have the same width. *)
Theorem path_to_audio_rectangular (path : str) :
  Forall (λ frame, length frame = bins) (compressed_magnitude path) →
  length (path_to_audio compressed_magnitude path) = 2754%nat ∧
  Forall (λ row, length row = 129%nat)
         (path_to_audio compressed_magnitude path).
Proof.
  intros Hframes. unfold path_to_audio. rewrite pad_then_slice. split.
  - rewrite length_app, length_take, length_replicate, length_map. lia.
  - apply Forall_app. split.
    + apply Forall_take, Forall_fmap.
      eapply Forall_impl; [exact Hframes |].
      intros frame Hframe. cbn [compose]. unfold normalise_row.
      rewrite length_map. exact Hframe.
    + apply Forall_replicate. apply length_replicate.
Qed.
End Shape.

End AudioMore.

(** ** A batch of the pipeline under the callback *)

Module ScriptFacts.
Import Py PyFacts Dataset Audio Pipeline.
Import VectorizeChar VectorizeCharFacts.
Import DisplayOutputs DisplayOutputsFacts PipelineFacts.

Lemma through_end_Forall (P : Z → Prop) (end_idx : Z) (row : list Z) :
  Forall P row → Forall P (through_end end_idx row).
Proof.
  induction 1 as [| idx row Hidx _ IH]; [constructor |].
  cbn [through_end]. destruct (idx =? end_idx); constructor; auto.
Qed.

Lemma class_index_valid (i : Z) : 0 ≤ i < 34 → valid_index the_vocab i.
Proof. intros Hi. unfold valid_index. change (len the_vocab) with 34. lia. Qed.

Section Script.
Variable unicode_lower : str → str.
Context {F : Type} `{TensorNum F}.
Variable compressed_magnitude : str → list (list F).

Lemma call_range (n : Z) (text : str) :
  2 ≤ n → Forall (λ i, 0 ≤ i < 34) (call unicode_lower (init n) text).
Proof.
  intros Hn. rewrite call_unfold by assumption.
  constructor; [lia |]. apply Forall_app. split.
  - apply Forall_forall. intros i Hi.
    apply list_elem_of_fmap in Hi as (ch & -> & _). apply encode_range.
  - constructor; [lia |]. apply Forall_replicate. lia.
Qed.

Lemma batch_targets (n : Z) (data : list sample) (bs : Z)
    (batches : list (batch_t (F := F))) (b : batch_t) :
  2 ≤ n →
  create_tf_dataset unicode_lower compressed_magnitude (init n) data bs
    = Some batches →
  b ∈ batches →
  length (source b) = length (target b) ∧
  Forall (Forall (λ i, 0 ≤ i < 34)) (target b).
Proof.
  intros Hn Hds Hb.
  assert (data ≠ []) as Hne by (intros ->; discriminate Hds).
  assert (0 < bs) as Hbs.
  { destruct (Z.lt_ge_cases 0 bs) as [? | Hle]; [assumption |].
    unfold create_tf_dataset, batch in Hds.
    destruct (create_audio_ds _ _); [| discriminate].
    destruct (create_text_ds _ _ _); [| discriminate].
    destruct (Z.leb_spec bs 0); [discriminate | lia]. }
  destruct (batch_groups unicode_lower compressed_magnitude
              n data bs Hn Hbs Hne) as (groups & Heq & Hconcat & _ & _).
  rewrite Heq in Hds. apply stack_all_inv in Hds as ->.
  apply list_elem_of_fmap in Hb as (g & -> & Hg).
  cbn [source target stacked]. split; [rewrite !length_map; reflexivity |].
  apply Forall_fmap, Forall_forall. intros [x y] Hxy. cbn [compose snd].
  assert ((x, y) ∈ concat groups) as Hin
    by (apply list_elem_of_In, in_concat; exists g;
        split; apply list_elem_of_In; assumption).
  rewrite Hconcat in Hin. apply elem_of_zip_r in Hin. cbn [snd] in Hin.
  apply list_elem_of_fmap in Hin as (s & -> & _).
  apply call_range. assumption.
Qed.

(** X21.  A batch of the script's dataset never trips the callback: with
    the vocabulary as table, a model that returns one row of class indices
    (each in [0, 34)) per source, and an epoch that is a multiple of 5,
    [on_epoch_end] shows every row of the batch and returns normally. *)
Theorem script_batch_is_displayed (n : Z) (data : list sample) (bs : Z)
    (batches : list (batch_t (F := F))) (b : batch_t)
    (generate : list (list (list F)) → Z → list (list Z))
    (epoch : Z) (log : list (event (list (list F)))) :
  2 ≤ n →
  create_tf_dataset unicode_lower compressed_magnitude (init n) data bs
    = Some batches →
  b ∈ batches →
  epoch mod 5 = 0 →
  let cb := display_cb b generate (init n) in
  let preds := generate (source b) 2 in
  (length (source b) ≤ length preds)%nat →
  Forall (Forall (λ i, 0 ≤ i < 34)) preds →
  on_epoch_end cb epoch log =
    (log ++ EvGenerate (source b) 2
         :: flat_map (row_lines cb preds) (seq 0 (length (source b))),
     ok tt).
Proof.
  intros Hn Hds Hb Hz cb preds Hrows Hpreds.
  destruct (batch_targets n data bs batches b Hn Hds Hb) as [Hlen Htargets].
  unfold on_epoch_end. rewrite Hz. cbn [Z.eqb negb].
  change (batch_source cb) with (source b).
  change (batch_target cb) with (target b).
  change (target_start_token_idx cb) with 2.
  change (model_generate cb (source b) 2) with preds.
  unfold seq_io, emit, range, len. rewrite Nat2Z.id.
  rewrite (for_each_lines _ (row_lines cb preds)).
  - rewrite <- app_assoc. reflexivity.
  - intros i log' Hi. apply elem_of_seq in Hi.
    change (target b) with (batch_target cb).
    apply show_row_lines.
    + change (batch_target cb) with (target b). lia.
    + lia.
    + change (idx_to_char cb) with the_vocab.
      change (batch_target cb) with (target b).
      apply (Forall_impl (λ i, 0 ≤ i < 34)); [| apply class_index_valid].
      apply (proj1 (Forall_nth _ [] (target b)) Htargets). lia.
    + change (idx_to_char cb) with the_vocab.
      apply (Forall_impl (λ i, 0 ≤ i < 34)); [| apply class_index_valid].
      apply through_end_Forall.
      apply (proj1 (Forall_nth _ [] preds) Hpreds). lia.
Qed.
End Script.

End ScriptFacts.

(** ** From the metadata file to the records *)

Module CorpusFacts.
Import Py PyFacts PySeq Dataset Metadata MetadataFacts.

Section Corpus.
Variable isspace : N → bool.

(** X22.  Reading a well-formed metadata file and then pairing the clips
    whose ids start some line never raises, and the transcript of each
    record is the third field of the LAST line that starts with the id of
    its clip. *)
Theorem get_data_of_metadata (lines wavs : list str) (maxlen : Z) :
  Forall (λ line, 2 ≤ pipe_count isspace line)%nat lines →
  Forall (λ w, ∃ id, wav_id w = ok id
                     ∧ is_Some (last_transcript isspace id lines)) wavs →
  ∃ id_to_text data,
    parse_metadata isspace lines = ok id_to_text ∧
    get_data wavs id_to_text maxlen = ok data ∧
    Forall (λ s, ∃ id, wav_id (audio s) = ok id
                       ∧ last_transcript isspace id lines = Some (text s)
                       ∧ len (text s) < maxlen) data.
Proof.
  intros Hlines Hwavs.
  destruct (parse_loop_fields isspace lines ∅) as (m & Hm & Hlookup).
  { eapply Forall_impl; [exact Hlines |]. intros line. apply fields_pipe_count. }
  assert (∀ id, m !! id = last_transcript isspace id lines) as Hlast.
  { intros id. rewrite Hlookup.
    destruct (last_transcript isspace id lines); [reflexivity | apply lookup_empty]. }
  assert (Forall (λ w, is_Some (transcript m w)) wavs) as Hpresent.
  { eapply Forall_impl; [exact Hwavs |].
    intros w (id & Hid & Hsome). unfold transcript. rewrite Hid.
    change (is_Some (m !! id)). rewrite Hlast. exact Hsome. }
  exists m, (omap (kept m maxlen) wavs).
  split; [exact Hm |]. split.
  - unfold get_data.
    rewrite (DatasetFacts.get_data_loop_present m maxlen wavs [] Hpresent).
    reflexivity.
  - eapply Forall_impl; [apply (DatasetFacts.omap_kept_text m maxlen wavs) |].
    intros s [Ht Hlen]. unfold transcript in Ht.
    destruct (wav_id (audio s)) as [e | id]; [discriminate |].
    exists id. rewrite <- Hlast. auto.
Qed.
End Corpus.

End CorpusFacts.

(** * The theorems at concrete inputs *)

Module Instances.
Import Py Audio Demo.

(** C1 at the configured [max_len = 200]. *)
Lemma vectorize_shape_witness :
  let text := lit "Printing, in the only sense." in
  let out := VectorizeChar.call (λ s, s) (VectorizeChar.init 200) text in
  let L := len (lower (λ s, s) text) in
  len out = 200 ∧
  out !! 0%nat = Some 2 ∧
  Forall (λ i, 0 ≤ i < 34) out ∧
  (L ≤ 200 - 2 →
     out !! Z.to_nat (L + 1) = Some 3 ∧
     ∀ j, L + 1 < j < 200 → out !! Z.to_nat j = Some 0).
Proof.
  apply (VectorizeCharFacts.vectorize_shape
           (λ s, s) 200 (lit "Printing, in the only sense.")).
  lia.
Defined.

(** C2 on a transcript with capitals, a space and punctuation. *)
Lemma vectorize_roundtrip_witness :
  let text := lit "Ask, then?" in
  DisplayOutputs.join_tokens
    (VectorizeChar.get_vocabulary (VectorizeChar.init 200))
    (take (length (lower (λ s, s) text))
          (drop 1 (VectorizeChar.call (λ s, s) (VectorizeChar.init 200) text)))
  = ok (lit "ask, then?").
Proof.
  apply (VectorizeCharFacts.vectorize_roundtrip (λ s, s) 200 (lit "Ask, then?")).
  - vm_compute. discriminate.
  - apply (bool_decide_unpack _). vm_compute. exact I.
Defined.

(** C3 as the specification states it fails on the code: the output for
    ["ab"] is not [[2; 5; 6; 3; 0; 0]]. *)
Lemma vectorize_ab_not_as_stated :
  VectorizeChar.call (λ s, s) (VectorizeChar.init 6) (lit "ab")
    = [2; 4; 5; 3; 0; 0]
  ∧ bool_decide (VectorizeChar.call (λ s, s) (VectorizeChar.init 6) (lit "ab")
                   = [2; 5; 6; 3; 0; 0]) = false.
Proof. split; vm_compute; reflexivity. Qed.

(** C5 in binary64, on a file whose only frame is silence: the frame comes
    out as 129 NaNs. *)
Lemma normalisation_divides_by_zero_witness :
  Forall (λ v, v = 0%float) silent_frame ∧
  reduce_std silent_frame = 0%float ∧
  path_to_audio (λ _, [silent_frame]) (lit "silence.wav") !! 0%nat
    = Some (replicate bins nan).
Proof.
  change nan with (fdiv (fzero : float) fzero).
  apply (@AudioFacts.normalisation_divides_by_zero
           float float_num AudioFacts.float_exact_zero
           (λ _, [silent_frame]) (lit "silence.wav") 0).
  - lia.
  - reflexivity.
Defined.




(** C8 at epoch 5: the generation routine runs, and the two prediction
    lines are ["<b>"] and ["<def"]. *)
Lemma on_epoch_end_displays_witness :
  DisplayOutputs.on_epoch_end demo_callback 5 [] =
    ([ DisplayOutputs.EvGenerate [tt; tt] 2;
       DisplayOutputs.EvPrint (lit "target:     <a>");
       DisplayOutputs.EvPrint (lit "prediction: <b>" ++ [DisplayOutputs.newline]);
       DisplayOutputs.EvPrint (lit "target:     <b>");
       DisplayOutputs.EvPrint (lit "prediction: <def" ++ [DisplayOutputs.newline]) ],
     ok tt).
Proof.
  destruct (DisplayOutputsFacts.on_epoch_end_displays demo_callback 5 [])
    as (_ & _ & Hshown).
  rewrite Hshown; [reflexivity | reflexivity | cbn; lia | cbn; lia |].
  intros [| [| i]] Hi; [| | cbn in Hi; lia];
    split; apply (bool_decide_unpack _); vm_compute; exact I.
Defined.

(** C9 with [maxlen = 10]: only the second clip is short enough. *)
Lemma get_data_filters_witness :
  ∃ data,
    Dataset.get_data demo_wavs demo_id_to_text 10 = ok data ∧
    map Dataset.audio data =
      List.filter (Dataset.short_enough demo_id_to_text 10) demo_wavs ∧
    Forall (λ s, Dataset.transcript demo_id_to_text (Dataset.audio s)
                   = Some (Dataset.text s)
                 ∧ len (Dataset.text s) < 10) data.
Proof.
  apply (DatasetFacts.get_data_filters demo_id_to_text 10 demo_wavs).
  apply (bool_decide_unpack _). vm_compute. exact I.
Defined.

(** C10 when the metadata lacks the second clip. *)
Lemma get_data_key_error_witness :
  ∃ id,
    Dataset.get_data demo_wavs demo_incomplete 200 = raise (KeyError id)
    ∧ demo_incomplete !! id = None.
Proof.
  apply (DatasetFacts.get_data_key_error demo_incomplete 200 demo_wavs).
  apply Exists_cons_tl, Exists_cons_hd. vm_compute. reflexivity.
Defined.

End Instances.

(** * The further properties at concrete inputs *)

Module MoreInstances.
Import Py PySeq Audio Demo Samples.

Local Ltac by_computation := apply (bool_decide_unpack _); vm_compute; exact I.

(** X1 on a transcript of eight characters with [max_len = 6]. *)
Lemma vectorize_truncates_witness :
  VectorizeChar.call (λ s, s) (VectorizeChar.init 6) (lit "abcdefgh")
    = 2 :: map VectorizeChar.encode
             (take (Z.to_nat (6 - 2)) (lower (λ s, s) (lit "abcdefgh")))
        ++ [3].
Proof.
  apply (VectorizeCharMore.vectorize_truncates (λ s, s) 6 (lit "abcdefgh")).
  - lia.
  - vm_compute. discriminate.
Defined.

(** X2 on ["a!b"]: the exclamation mark is not in the vocabulary. *)
Lemma vectorize_codes_witness :
  let out := VectorizeChar.call (λ s, s) (VectorizeChar.init 200) (lit "a!b") in
  ([33%N] ∈ VectorizeChar.the_vocab →
     ∃ j : nat, VectorizeChar.the_vocab !! j = Some [33%N]
                ∧ out !! 2%nat = Some (Z.of_nat j)) ∧
  ([33%N] ∉ VectorizeChar.the_vocab → out !! 2%nat = Some 1).
Proof.
  apply (VectorizeCharMore.vectorize_codes (λ s, s) 200 (lit "a!b") 1 33%N).
  - lia.
  - reflexivity.
  - lia.
Defined.

(** X3 with [max_len = 1]. *)
Lemma vectorize_small_max_len_witness :
  let out := VectorizeChar.call (λ s, s) (VectorizeChar.init 1) (lit "abc") in
  let L := len (lower (λ s, s) (lit "abc")) in
  len out = Z.max (L + 1 - 2) 0 + 2 ∧ 1 < len out.
Proof.
  apply (VectorizeCharMore.vectorize_small_max_len (λ s, s) 1 (lit "abc")). lia.
Defined.

(** X4 on ["Hello"]. *)
Lemma vectorize_ignores_case_witness :
  VectorizeChar.call (λ s, s) (VectorizeChar.init 200)
    (map ascii_lower (lit "Hello"))
  = VectorizeChar.call (λ s, s) (VectorizeChar.init 200) (lit "Hello").
Proof.
  apply (VectorizeCharMore.vectorize_ignores_case
           (λ s, s) (VectorizeChar.init 200) (lit "Hello")).
  reflexivity.
Defined.

(** X5 on a path of the corpus. *)
Lemma wav_id_basename_witness :
  Dataset.wav_id (lit "./datasets/LJSpeech-1.1/wavs" ++ [Dataset.slash]
                    ++ lit "LJ001-0001" ++ [Dataset.dot] ++ lit "wav")
    = ok (lit "LJ001-0001")
  ∧ Dataset.wav_id (lit "LJ001-0001" ++ [Dataset.dot] ++ lit "wav")
    = ok (lit "LJ001-0001").
Proof.
  apply (DatasetMore.wav_id_basename
           (lit "./datasets/LJSpeech-1.1/wavs") (lit "LJ001-0001") (lit "wav"));
    by_computation.
Defined.

(** X6: the metadata lacks the second clip. *)
Lemma get_data_first_missing_witness :
  Dataset.get_data
    ([lit "./datasets/LJSpeech-1.1/wavs/LJ001-0001.wav"]
       ++ lit "./datasets/LJSpeech-1.1/wavs/LJ001-0002.wav" :: [])
    demo_incomplete 200
  = raise (KeyError (lit "LJ001-0002")).
Proof.
  apply (DatasetMore.get_data_first_missing demo_incomplete 200
           [lit "./datasets/LJSpeech-1.1/wavs/LJ001-0001.wav"]
           (lit "./datasets/LJSpeech-1.1/wavs/LJ001-0002.wav") []
           (lit "LJ001-0002")).
  - by_computation.
  - reflexivity.
  - vm_compute. reflexivity.
Defined.

(** X7 with the bounds 10 and 200. *)
Lemma get_data_smaller_maxlen_witness :
  ∃ data1 data2,
    Dataset.get_data demo_wavs demo_id_to_text 10 = ok data1 ∧
    Dataset.get_data demo_wavs demo_id_to_text 200 = ok data2 ∧
    data1 = List.filter (λ s, len (Dataset.text s) <? 10) data2.
Proof.
  apply (DatasetMore.get_data_smaller_maxlen demo_id_to_text 10 200 demo_wavs).
  - lia.
  - by_computation.
Defined.

(** X8: the first clip has two lines, the later one wins. *)
Lemma parse_metadata_last_wins_witness :
  ∃ m, Metadata.parse_metadata ascii_isspace sample_lines = ok m ∧
       ∀ id, m !! id = Metadata.last_transcript ascii_isspace id sample_lines.
Proof.
  apply (MetadataFacts.parse_metadata_last_wins ascii_isspace sample_lines).
  by_computation.
Defined.

(** X9: a short line after three good ones. *)
Lemma parse_metadata_short_line_witness :
  Metadata.parse_metadata ascii_isspace (sample_lines ++ short_line :: sample_lines)
    = raise IndexError.
Proof.
  apply (MetadataFacts.parse_metadata_short_line ascii_isspace
           sample_lines short_line sample_lines).
  - by_computation.
  - vm_compute. lia.
Defined.

(** X10: index 99 after the end token is not read. *)
Lemma prediction_ignores_suffix_witness :
  DisplayOutputs.prediction_loop VectorizeChar.the_vocab 3
    ([2; 5] ++ 3 :: [99; 4]) []
  = ok ([] ++ DisplayOutputs.decode VectorizeChar.the_vocab ([2; 5] ++ [3])).
Proof.
  apply (DisplayOutputsMore.prediction_ignores_suffix
           VectorizeChar.the_vocab 3 [2; 5] [99; 4] []);
    by_computation.
Defined.

(** X11: the second of three rows cannot be decoded. *)
Lemma on_epoch_end_stops_witness :
  let source := DisplayOutputs.batch_source bad_callback in
  let start := DisplayOutputs.target_start_token_idx bad_callback in
  let preds := DisplayOutputs.model_generate bad_callback source start in
  ∃ k,
    (k ≤ length source)%nat ∧
    (∀ i, (i < k)%nat → DisplayOutputs.decodable bad_callback preds i) ∧
    ((k < length source)%nat → ¬ DisplayOutputs.decodable bad_callback preds k) ∧
    DisplayOutputs.on_epoch_end bad_callback 10 [] =
      ([] ++ DisplayOutputs.EvGenerate source start
          :: flat_map (DisplayOutputs.row_lines bad_callback preds) (seq 0 k),
       if (k =? length source)%nat then ok tt else raise IndexError).
Proof.
  apply (DisplayOutputsMore.on_epoch_end_stops_at_first_bad_row bad_callback 10 []).
  reflexivity.
Defined.

(** X12 on ["a-b!"]: the hyphen goes, the exclamation mark shows as ['#']. *)
Lemma target_line_of_transcript_witness :
  let kept := take (Z.to_nat (200 - 2)) (lower (λ s, s) (lit "a-b!")) in
  ∃ target_text,
    DisplayOutputs.join_tokens
      (VectorizeChar.get_vocabulary (VectorizeChar.init 200))
      (VectorizeChar.call (λ s, s) (VectorizeChar.init 200) (lit "a-b!"))
      = ok target_text ∧
    remove_char DisplayOutputs.hyphen target_text
      = lit "<" ++ remove_char DisplayOutputs.hyphen (map Shown.shown kept)
        ++ lit ">".
Proof.
  apply (ShownFacts.target_line_of_transcript (λ s, s) 200 (lit "a-b!")). lia.
Defined.

(** X15: step 3 * 203 + 202 is the last step of epoch 3. *)
Lemma call_within_epoch_witness :
  CustomSchedule.call (CustomSchedule.script_schedule 203)
    (CustomSchedule.PyInt
       (3 * CustomSchedule.steps_per_epoch (CustomSchedule.script_schedule 203)
        + 202))
  = CustomSchedule.calculate_lr (CustomSchedule.script_schedule 203)
      (CustomSchedule.PyInt 3) ∧
  CustomSchedule.call (CustomSchedule.script_schedule 203)
    (CustomSchedule.Int64Tensor
       (3 * CustomSchedule.steps_per_epoch (CustomSchedule.script_schedule 203)
        + 202))
  = CustomSchedule.calculate_lr (CustomSchedule.script_schedule 203)
      (CustomSchedule.Int64Tensor 3).
Proof.
  apply (CurvesFacts.call_within_epoch (CustomSchedule.script_schedule 203) 3 202).
  cbn. lia.
Defined.

(** X23: no steps in an epoch, and a warmup of one epoch. *)
Lemma call_zero_divisor_witness :
  CustomSchedule.call (CustomSchedule.script_schedule 0)
    (CustomSchedule.PyInt 7) = raise ZeroDivisionError ∧
  CustomSchedule.call (CustomSchedule.mk 0 1 0 1 85 203)
    (CustomSchedule.PyInt 7) = raise ZeroDivisionError ∧
  CustomSchedule.call (CustomSchedule.mk 0 1 0 1 85 203)
    (CustomSchedule.Int64Tensor 7) = raise ZeroDivisionError.
Proof.
  split.
  - apply (proj1 (CurvesFacts.call_zero_divisor
                    (CustomSchedule.script_schedule 0) 7)).
    reflexivity.
  - apply (proj2 (CurvesFacts.call_zero_divisor
                    (CustomSchedule.mk 0 1 0 1 85 203) 7)).
    + discriminate.
    + reflexivity.
Defined.

(** X16 on three records with [max_len = 6]. *)
Lemma create_text_ds_rows_witness :
  ∃ rows,
    Pipeline.create_text_ds (λ s, s) (VectorizeChar.init 6) sample_data
      = Some rows ∧
    rows = map (λ s, VectorizeChar.call (λ s, s) (VectorizeChar.init 6)
                       (Dataset.text s)) sample_data ∧
    Forall (λ r, len r = 6) rows.
Proof.
  apply (PipelineFacts.create_text_ds_rows (λ s, s) 6 sample_data). lia.
Defined.

(** X17 with [max_len = 1]: transcripts of two and of eight characters. *)
Lemma create_text_ds_ragged_witness :
  Pipeline.create_text_ds (λ s, s) (VectorizeChar.init 1)
    (Dataset.mk_sample (lit "wavs/LJ001-0001.wav") (lit "Hi")
     :: Dataset.mk_sample (lit "wavs/LJ001-0002.wav") (lit "in being")
     :: [])
  = None.
Proof.
  apply (PipelineFacts.create_text_ds_ragged (λ s, s) 1
           (Dataset.mk_sample (lit "wavs/LJ001-0001.wav") (lit "Hi"))
           (Dataset.mk_sample (lit "wavs/LJ001-0002.wav") (lit "in being")) []).
  - lia.
  - vm_compute. discriminate.
Defined.

(** X18: three records of two frames each, in batches of two, make two
    batches. *)
Lemma create_tf_dataset_batches_witness :
  Pipeline.create_tf_dataset (λ s, s) two_frames (VectorizeChar.init 6) [] 2
    = None ∧
  ∃ batches,
    Pipeline.create_tf_dataset (λ s, s) two_frames (VectorizeChar.init 6)
      sample_data 2 = Some batches ∧
    concat (map Pipeline.source batches)
      = map (λ s, path_to_audio two_frames (Dataset.audio s)) sample_data ∧
    concat (map Pipeline.target batches)
      = map (λ s, VectorizeChar.call (λ s, s) (VectorizeChar.init 6)
                    (Dataset.text s)) sample_data ∧
    Forall (λ b, length (Pipeline.source b) = length (Pipeline.target b)
                 ∧ 0 < len (Pipeline.target b) ≤ 2) batches ∧
    len batches = (len sample_data + 2 - 1) / 2.
Proof.
  destruct (PipelineFacts.create_tf_dataset_batches
              (λ s, s) two_frames 6 sample_data 2) as [Hempty Hbuilt];
    [lia | lia | intros path; repeat constructor |].
  split; [exact Hempty | apply Hbuilt; discriminate].
Defined.

(** X20 on a clip of two frames. *)
Lemma path_to_audio_rectangular_witness :
  length (path_to_audio (λ _, [replicate bins 1%float; silent_frame])
            (lit "clip.wav")) = 2754%nat ∧
  Forall (λ row, length row = 129%nat)
         (path_to_audio (λ _, [replicate bins 1%float; silent_frame])
            (lit "clip.wav")).
Proof.
  apply (AudioMore.path_to_audio_rectangular
           (λ _, [replicate bins 1%float; silent_frame]) (lit "clip.wav")).
  repeat constructor.
Defined.

(** X22 on the sample lines and the two clips they name. *)
Lemma get_data_of_metadata_witness :
  ∃ id_to_text data,
    Metadata.parse_metadata ascii_isspace sample_lines = ok id_to_text ∧
    Dataset.get_data demo_wavs id_to_text 200 = ok data ∧
    Forall (λ s, ∃ id, Dataset.wav_id (Dataset.audio s) = ok id
                       ∧ Metadata.last_transcript ascii_isspace id sample_lines
                         = Some (Dataset.text s)
                       ∧ len (Dataset.text s) < 200) data.
Proof.
  apply (CorpusFacts.get_data_of_metadata ascii_isspace sample_lines demo_wavs 200).
  - by_computation.
  - repeat constructor.
    + exists (lit "LJ001-0001"). split; [reflexivity |]. vm_compute. eauto.
    + exists (lit "LJ001-0002"). split; [reflexivity |]. vm_compute. eauto.
Defined.

Lemma sample_batches_built :
  Pipeline.create_tf_dataset (λ s, s) no_frames (VectorizeChar.init 6)
    sample_data 2 = Some sample_batches
  ∧ sample_batch ∈ sample_batches.
Proof.
  destruct (PipelineFacts.create_tf_dataset_groups
              (λ s, s) no_frames 6 sample_data 2)
    as (groups & Hbuilt & _ & _ & Hcount);
    [lia | lia | discriminate | constructor |].
  unfold sample_batch, sample_batches. rewrite Hbuilt. cbn [default].
  split; [reflexivity |].
  destruct groups as [| g groups]; [discriminate Hcount |].
  apply list_elem_of_here.
Defined.

Lemma sample_generate_rows (source : list (list (list float))) :
  (length source ≤ length (sample_generate source 2))%nat ∧
  Forall (Forall (λ i, 0 ≤ i < 34)) (sample_generate source 2).
Proof.
  unfold sample_generate. split; [rewrite length_map; lia |].
  apply Forall_fmap, Forall_forall. intros x _. repeat constructor; lia.
Qed.

(** X21 on the first batch of three records, at epoch 5. *)
Lemma script_batch_is_displayed_witness :
  let cb := Pipeline.display_cb sample_batch sample_generate
              (VectorizeChar.init 6) in
  let preds := sample_generate (Pipeline.source sample_batch) 2 in
  DisplayOutputs.on_epoch_end cb 5 [] =
    ([] ++ DisplayOutputs.EvGenerate (Pipeline.source sample_batch) 2
        :: flat_map (DisplayOutputs.row_lines cb preds)
             (seq 0 (length (Pipeline.source sample_batch))),
     ok tt).
Proof.
  apply (ScriptFacts.script_batch_is_displayed
           (λ s, s) no_frames 6 sample_data 2 sample_batches sample_batch
           sample_generate 5 []
           ltac:(lia) (proj1 sample_batches_built) (proj2 sample_batches_built)
           eq_refl
           (proj1 (sample_generate_rows (Pipeline.source sample_batch)))
           (proj2 (sample_generate_rows (Pipeline.source sample_batch)))).
Defined.

End MoreInstances.
